(** * Comment cleaner ([clean_comment.py]): model and verified properties

    The transformation engine of [clean_comment.py] is embedded as Rocq
    functions: Python [str] values are lists of Unicode code points, the
    handful of [re] features the pattern table uses are given a backtracking
    matcher, and [_remove_comments_universal] / [process_code_content] are
    translated statement by statement. *)

From Stdlib Require Import String Ascii.
From Stdlib Require Import List NArith Arith Bool Lia.
Import ListNotations.

(** ** Python [str] *)

Module Str.

(** A [str] is a sequence of code points. *)
Definition char := N.
Definition str := list char.

Definition nl : char := 10%N.

(** Reading of a literal as Python reads it between quotes: backslash-n is
    U+000A, backslash-t is U+0009, every other character stands for itself. *)
Fixpoint unescape (l : list ascii) : str :=
  match l with
  | [] => []
  | a :: rest =>
    match rest with
    | b :: rest' =>
      if (N_of_ascii a =? 92)%N && (N_of_ascii b =? 110)%N then 10%N :: unescape rest'
      else if (N_of_ascii a =? 92)%N && (N_of_ascii b =? 116)%N then 9%N :: unescape rest'
      else N_of_ascii a :: unescape rest
    | [] => [N_of_ascii a]
    end
  end.

Definition py (s : string) : str := unescape (list_ascii_of_string s).

Definition is_empty (s : str) : bool :=
  match s with [] => true | _ :: _ => false end.

Definition str_eqb (a b : str) : bool :=
  if list_eq_dec N.eq_dec a b then true else false.

(** [str.isspace] on one code point (the table of CPython's
    [_PyUnicode_IsWhitespace]); the same predicate drives [\s] in [re]. *)
Definition isspace (c : char) : bool :=
  ((9 <=? c) && (c <=? 13) || (28 <=? c) && (c <=? 32) ||
   (c =? 133) || (c =? 160) || (c =? 5760) ||
   (8192 <=? c) && (c <=? 8202) ||
   (c =? 8232) || (c =? 8233) || (c =? 8239) || (c =? 8287) || (c =? 12288))%N.

(** [s.rstrip(chars)] for a character class [p]: drop the longest suffix
    made of [p]. *)
Fixpoint rstrip_by (p : char -> bool) (s : str) : str :=
  match s with
  | [] => []
  | c :: s' =>
    match rstrip_by p s' with
    | [] => if p c then [] else [c]
    | r => c :: r
    end
  end.

Fixpoint lstrip_by (p : char -> bool) (s : str) : str :=
  match s with
  | [] => []
  | c :: s' => if p c then lstrip_by p s' else s
  end.

(** [s.rstrip()], [s.strip()], [s.rstrip('\n')]. *)
Definition rstrip (s : str) : str := rstrip_by isspace s.
Definition strip (s : str) : str := rstrip_by isspace (lstrip_by isspace s).
Definition rstrip_nl (s : str) : str := rstrip_by (N.eqb nl) s.

(** [s.endswith('\n')]. *)
Fixpoint endswith_nl (s : str) : bool :=
  match s with
  | [] => false
  | [c] => (c =? nl)%N
  | _ :: s' => endswith_nl s'
  end.

(** [s.split('\n')]: never the empty list. *)
Fixpoint split_nl (s : str) : list str :=
  match s with
  | [] => [[]]
  | c :: s' =>
    if (c =? nl)%N then [] :: split_nl s'
    else match split_nl s' with
         | l :: ls => (c :: l) :: ls
         | [] => [[c]]
         end
  end.

(** ["\n".join(lines)]. *)
Fixpoint join_nl (ls : list str) : str :=
  match ls with
  | [] => []
  | [l] => l
  | l :: ls' => l ++ nl :: join_nl ls'
  end.

End Str.
Import Str.

(** ** The fragment of [re] used by the pattern table *)

Module Re.

(** Pattern items.  Every repetition in the table is over a one-character
    class, and there is no alternation, so a pattern is a sequence of items. *)
Inductive atom : Type :=
| Bol                               (* ^   (no MULTILINE) *)
| Eol                               (* $   (no MULTILINE) *)
| Chr (c : char)                    (* a literal character *)
| Star (p : char -> bool)           (* cls*   greedy *)
| Plus (p : char -> bool)           (* cls+   greedy *)
| StarLazy (p : char -> bool).      (* cls*?  minimal *)

Definition regex := list atom.

(** Character classes. *)
Definition one_of (cs : str) (c : char) : bool := existsb (N.eqb c) cs.
Definition none_of (cs : str) (c : char) : bool := negb (existsb (N.eqb c) cs).
Definition dot (c : char) : bool := negb (c =? nl)%N.      (* .  *)
Definition dot_all (_ : char) : bool := true.              (* .  under DOTALL *)

(** [$] holds at the end of the subject and just before a final newline. *)
Definition at_eol (s : str) : bool :=
  match s with
  | [] => true
  | [c] => (c =? nl)%N
  | _ => false
  end.

Section Exec.
Variable R : Type.

(** Greedy repetition: take one more character first, fall back to the
    continuation. *)
Fixpoint star_loop (p : char -> bool) (k : nat -> str -> option R)
         (pos : nat) (s : str) : option R :=
  match s with
  | c :: s' =>
    if p c then
      match star_loop p k (S pos) s' with
      | Some m => Some m
      | None => k pos s
      end
    else k pos s
  | [] => k pos s
  end.

(** Minimal repetition: try the continuation first, take one more
    character on failure. *)
Fixpoint lazy_loop (p : char -> bool) (k : nat -> str -> option R)
         (pos : nat) (s : str) : option R :=
  match k pos s with
  | Some m => Some m
  | None =>
    match s with
    | c :: s' => if p c then lazy_loop p k (S pos) s' else None
    | [] => None
    end
  end.

(** Backtracking matcher: [exec r k pos s] matches [r] against [s], which
    starts at offset [pos] of the subject, and hands the offset and the
    rest of the subject to [k]; the first success in backtracking order
    wins. *)
Fixpoint exec (r : regex) (k : nat -> str -> option R) : nat -> str -> option R :=
  match r with
  | [] => k
  | a :: r' =>
    let k' := exec r' k in
    match a with
    | Bol => fun pos s => if Nat.eqb pos 0 then k' pos s else None
    | Eol => fun pos s => if at_eol s then k' pos s else None
    | Chr c =>
      fun pos s =>
        match s with
        | x :: s' => if (x =? c)%N then k' (S pos) s' else None
        | [] => None
        end
    | Star p => star_loop p k'
    | Plus p =>
      fun pos s =>
        match s with
        | x :: s' => if p x then star_loop p k' (S pos) s' else None
        | [] => None
        end
    | StarLazy p => lazy_loop p k'
    end
  end.
End Exec.

Arguments star_loop {R} p k pos s.
Arguments lazy_loop {R} p k pos s.
Arguments exec {R} r k pos s.

(** [re.fullmatch(r, s)]: the match has to end at the end of [s]. *)
Definition re_fullmatch (r : regex) (s : str) : bool :=
  match exec r (fun e rest => if is_empty rest then Some e else None) 0 s with
  | Some _ => true
  | None => false
  end.

(** A pattern of the form [(g1)(g2)]: two capture groups in sequence. *)
Record regex2 : Type := Groups { g1 : regex; g2 : regex }.

(** [re.match] on a two-group pattern: the end of group 1 and the end of the
    match.  Group 1 starts where the match starts, at offset 0. *)
Definition re_match2 (r : regex2) (s : str) : option (nat * nat) :=
  exec (g1 r)
       (fun e1 s1 => exec (g2 r) (fun e2 _ => Some (e1, e2)) e1 s1) 0 s.

(** [match.group(1)]. *)
Definition group1 (m : nat * nat) (s : str) : str := firstn (fst m) s.

(** [re.sub(r, '', s)]: scan left to right; where [r] matches, skip the
    matched characters and resume after them; elsewhere copy the character.
    [skip] counts the characters of the current match still to be dropped.
    An empty match replaces nothing by nothing. *)
Fixpoint sub_empty_from (r : regex) (pos skip : nat) (s : str) : str :=
  match s with
  | [] => []
  | c :: s' =>
    match skip with
    | S n => sub_empty_from r (S pos) n s'
    | O =>
      match exec r (fun e _ => Some e) pos s with
      | Some e =>
        if Nat.ltb pos e then sub_empty_from r (S pos) (e - pos - 1) s'
        else c :: sub_empty_from r (S pos) 0 s'
      | None => c :: sub_empty_from r (S pos) 0 s'
      end
    end
  end.

Definition re_sub_empty (r : regex) (s : str) : str := sub_empty_from r 0 0 s.

End Re.
Import Re.

(** ** [COMMENT_DEFINITIONS] and [LANGUAGE_MAP] *)

(** A language definition: the dictionary with the keys ['inline'],
    ['full_line'] and ['block_dotall'] (absent or [None]: no block form). *)
Record lang_def : Type := LangDef {
  inline : list regex2;
  full_line : list regex;
  block_dotall : option regex
}.

Definition lit (s : str) : regex := map Chr s.

Definition blank : char -> bool := one_of (py " \t").       (* [ \t] *)
Definition not_nl : char -> bool := none_of (py "\n").      (* [^\n] *)

(* group 1: ^[^#\n]*     group 2: [ \t]+#[^\n]*$ *)
Definition inline_hash : regex2 :=
  Groups [Bol; Star (none_of (py "#\n"))]
         ([Plus blank] ++ lit (py "#") ++ [Star not_nl; Eol]).

(* group 1: ^[^/\n]*     group 2: [ \t]+//[^\n]*$ *)
Definition inline_slashes : regex2 :=
  Groups [Bol; Star (none_of (py "/\n"))]
         ([Plus blank] ++ lit (py "//") ++ [Star not_nl; Eol]).

(* group 1: ^[^/\n]*     group 2: [ \t]+/\*.*?\*/[ \t]*$ *)
Definition inline_block : regex2 :=
  Groups [Bol; Star (none_of (py "/\n"))]
         ([Plus blank] ++ lit (py "/*") ++ [StarLazy dot] ++ lit (py "*/")
          ++ [Star blank; Eol]).

(* group 1: ^[^<\n]*     group 2: [ \t]+<!--.*?-->[ \t]*$ *)
Definition inline_xml : regex2 :=
  Groups [Bol; Star (none_of (py "<\n"))]
         ([Plus blank] ++ lit (py "<!--") ++ [StarLazy dot] ++ lit (py "-->")
          ++ [Star blank; Eol]).

(* group 1: ^[^/\n#]*    group 2: [ \t]+//[^\n]*$ *)
Definition inline_php_slashes : regex2 :=
  Groups [Bol; Star (none_of (py "/\n#"))]
         ([Plus blank] ++ lit (py "//") ++ [Star not_nl; Eol]).

(* group 1: ^[^/\n#]*    group 2: [ \t]+#[^\n]*$ *)
Definition inline_php_hash : regex2 :=
  Groups [Bol; Star (none_of (py "/\n#"))]
         ([Plus blank] ++ lit (py "#") ++ [Star not_nl; Eol]).

(* group 1: ^[^/\n#]*    group 2: [ \t]+/\*.*?\*/[ \t]*$ *)
Definition inline_php_block : regex2 :=
  Groups [Bol; Star (none_of (py "/\n#"))]
         ([Plus blank] ++ lit (py "/*") ++ [StarLazy dot] ++ lit (py "*/")
          ++ [Star blank; Eol]).

(* ^\s*#.*$ *)
Definition full_hash : regex :=
  [Bol; Star isspace] ++ lit (py "#") ++ [Star dot; Eol].

(* ^\s*//.*$ *)
Definition full_slashes : regex :=
  [Bol; Star isspace] ++ lit (py "//") ++ [Star dot; Eol].

(* ^\s*/\*.*?\*/\s*$ *)
Definition full_block : regex :=
  [Bol; Star isspace] ++ lit (py "/*") ++ [StarLazy dot] ++ lit (py "*/")
  ++ [Star isspace; Eol].

(* ^\s*<!--.*?-->\s*$ *)
Definition full_xml : regex :=
  [Bol; Star isspace] ++ lit (py "<!--") ++ [StarLazy dot] ++ lit (py "-->")
  ++ [Star isspace; Eol].

(* /\*.*?\*/   with re.DOTALL *)
Definition block_c : regex :=
  lit (py "/*") ++ [StarLazy dot_all] ++ lit (py "*/").

(* <!--.*?-->  with re.DOTALL *)
Definition block_xml : regex :=
  lit (py "<!--") ++ [StarLazy dot_all] ++ lit (py "-->").

Definition python_like : lang_def :=
  LangDef [inline_hash] [full_hash] None.

Definition c_like : lang_def :=
  LangDef [inline_slashes; inline_block] [full_slashes; full_block] (Some block_c).

Definition c_like_line_only : lang_def :=
  LangDef [inline_slashes] [full_slashes] None.

Definition xml_like : lang_def :=
  LangDef [inline_xml] [full_xml] (Some block_xml).

Definition css_like : lang_def :=
  LangDef [inline_block] [full_block] (Some block_c).

Definition php_like : lang_def :=
  LangDef [inline_php_slashes; inline_php_hash; inline_php_block]
          [full_slashes; full_hash; full_block] (Some block_c).

Definition COMMENT_DEFINITIONS : list lang_def :=
  [python_like; c_like; c_like_line_only; xml_like; css_like; php_like].

Definition LANGUAGE_MAP : list (str * lang_def) :=
  [ (py ".py", python_like); (py ".sh", python_like); (py ".rb", python_like);
    (py ".yml", python_like); (py ".yaml", python_like);
    (py ".js", c_like); (py ".java", c_like); (py ".c", c_like);
    (py ".cpp", c_like); (py ".cs", c_like); (py ".kts", c_like);
    (py ".kt", c_like); (py ".swift", c_like); (py ".ts", c_like);
    (py ".jsx", c_like); (py ".tsx", c_like); (py ".json", c_like);
    (py ".go", c_like_line_only); (py ".rs", c_like_line_only);
    (py ".xml", xml_like); (py ".html", xml_like);
    (py ".css", css_like);
    (py ".php", php_like) ].

(** [LANGUAGE_MAP.get(key)]. *)
Fixpoint dict_get (d : list (str * lang_def)) (key : str) : option lang_def :=
  match d with
  | [] => None
  | (k, v) :: d' => if str_eqb k key then Some v else dict_get d' key
  end.

(** ** [_remove_comments_universal] *)

Section Engine.
Variable d : lang_def.
Variable remove_all : bool.

(** Stage 1: the block pass over the whole buffer, in remove-all mode and
    when the definition has a block pattern. *)
Definition block_pass (content : str) : str :=
  if remove_all then
    match block_dotall d with
    | Some block_pattern_dotall => re_sub_empty block_pattern_dotall content
    | None => content
    end
  else content.

(** Stage 2a: is the stripped line matched in full by a full-line pattern? *)
Definition is_full_line_comment_type (modified_line : str) : bool :=
  existsb (fun pattern => re_fullmatch pattern (strip modified_line)) (full_line d).

(** One inline pattern tried on the current state of the line. *)
Definition apply_inline (temp_line_for_inline : str) (pattern : regex2) : str :=
  match re_match2 pattern temp_line_for_inline with
  | Some m =>
    let code_part := group1 m temp_line_for_inline in
    if remove_all then rstrip code_part
    else if negb (is_empty (strip code_part)) then rstrip code_part
    else temp_line_for_inline
  | None => temp_line_for_inline
  end.

(** The [for] loop over the inline patterns. *)
Definition inline_pass (temp_line_for_inline : str) : str :=
  fold_left apply_inline (inline d) temp_line_for_inline.

(** The [while] loop: as long as the state differs from the state before
    the previous pass, run a pass.  [None]: [fuel] iterations did not reach
    the exit test. *)
Fixpoint inline_while (fuel : nat) (previous_state temp_line_for_inline : str)
  : option str :=
  if str_eqb previous_state temp_line_for_inline then Some temp_line_for_inline
  else
    match fuel with
    | O => None
    | S fuel' =>
      inline_while fuel' temp_line_for_inline (inline_pass temp_line_for_inline)
    end.

(** Stage 2b on one line.  The bound [S (length line_text)] is always enough
    ([strip_inline_facts] below), so the [None] branch is never taken. *)
Definition strip_inline (line_text : str) : str :=
  match inline_while (S (length line_text)) [] line_text with
  | Some r => r
  | None => line_text
  end.

(** The body of the loop over the lines. *)
Definition process_line (line_text : str) : str :=
  if remove_all && is_full_line_comment_type line_text then []
  else strip_inline line_text.

Definition result_lines (content : str) : list str :=
  map process_line (split_nl (block_pass content)).
End Engine.

(** Blank-line clean-up of remove-all mode.  The source guards each step
    with a test that the list is not empty; every step below returns the
    empty list on the empty list, so the guards are not repeated. *)

(* 1. whitespace-only lines become empty *)
Definition cleaned_stage1 (lines : list str) : list str :=
  map (fun line => if negb (is_empty (strip line)) then line else []) lines.

(* 2. one step of the scan that keeps at most one empty line in a row *)
Definition collapse_step (cleaned_stage2 : list str) (line_text : str) : list str :=
  if negb (is_empty line_text) then cleaned_stage2 ++ [line_text]
  else
    match cleaned_stage2 with
    | [] => cleaned_stage2 ++ [[]]
    | _ :: _ =>
      if negb (is_empty (last cleaned_stage2 [])) then cleaned_stage2 ++ [[]]
      else cleaned_stage2
    end.

Definition collapse (lines : list str) : list str :=
  fold_left collapse_step lines [].

(* 3a. while cleaned_stage2 and cleaned_stage2[0] == "": pop(0) *)
Fixpoint pop_leading (cleaned_stage2 : list str) : list str :=
  match cleaned_stage2 with
  | [] => []
  | l :: rest => if is_empty l then pop_leading rest else cleaned_stage2
  end.

(* 3b. while len(cleaned_stage2) > 1 and cleaned_stage2[-1] == "": pop();
   one iteration per unit of [n], and the list has only so many elements *)
Fixpoint pop_trailing (n : nat) (cleaned_stage2 : list str) : list str :=
  match n with
  | O => cleaned_stage2
  | S n' =>
    if Nat.ltb 1 (length cleaned_stage2) && is_empty (last cleaned_stage2 [])
    then pop_trailing n' (removelast cleaned_stage2)
    else cleaned_stage2
  end.

(* the three steps in sequence; the result replaces [result_lines] *)
Definition blank_collapser (lines : list str) : list str :=
  let cleaned_stage2 := pop_leading (collapse (cleaned_stage1 lines)) in
  pop_trailing (length cleaned_stage2) cleaned_stage2.

(** Newline fidelity: the tail of the function, from the join on. *)
Definition newline_fidelity (content : str) (lines : list str) : str :=
  let final_content := join_nl lines in
  let original_had_trailing_newline := endswith_nl content in
  if is_empty final_content && (match lines with [] => true | _ => false end)
     && str_eqb content [nl] then [nl]
  else if is_empty final_content && (match lines with [] => true | _ => false end)
          && is_empty content then []
  else if negb (is_empty final_content) then
    if original_had_trailing_newline then
      if negb (endswith_nl final_content) then final_content ++ [nl]
      else final_content
    else
      if endswith_nl final_content then rstrip_nl final_content
      else final_content
  else if original_had_trailing_newline then [nl]
  else final_content.

(** The lines handed to the join: [result_lines], cleaned up in remove-all
    mode. *)
Definition final_lines (d : lang_def) (remove_all : bool) (content : str) : list str :=
  if remove_all then blank_collapser (result_lines d remove_all content)
  else result_lines d remove_all content.

Definition _remove_comments_universal (content : str) (d : lang_def)
           (remove_all : bool) : str :=
  newline_fidelity content (final_lines d remove_all content).

(** ** [process_code_content] *)

Section Wrapper.
(** [str.lower]: Unicode case mapping is not part of this program; every
    statement below holds whatever function it is. *)
Variable lower : str -> str.

Definition process_code_content (content file_extension : str)
           (remove_all_comments_flag : bool) : str :=
  match dict_get LANGUAGE_MAP (lower file_extension) with
  | None => content
  | Some d => _remove_comments_universal content d remove_all_comments_flag
  end.
End Wrapper.

(** [str.lower] on the ASCII letters, for the concrete runs. *)
Definition lower_ascii (s : str) : str :=
  map (fun c => if (65 <=? c)%N && (c <=? 90)%N then (c + 32)%N else c) s.

(** ** [process_file] *)

(** What opening and reading the file gives: its text, a
    [UnicodeDecodeError], or any other exception. *)
Inductive read_result : Type :=
| ReadText (content : str)
| ReadUnicodeDecodeError
| ReadOtherError.

(** What happens to the file: nothing, a successful rewrite with the given
    text, or an exception while opening it for writing or writing it. *)
Inductive file_effect : Type :=
| Untouched
| Written (new_content : str)
| WriteFailed.

(** The line printed. *)
Inductive notice : Type :=
| Skipping_unsupported      (* Skipping ... (unsupported file type ...) *)
| Would_modify              (* Would modify: ... *)
| Modified                  (* Modified: ... *)
| No_changes_needed         (* No changes needed: ... *)
| Skipping_not_text         (* Skipping ... (not a text file ...) *)
| Error_processing.         (* Error processing ...: ... *)

Section ProcessFile.
Variable lower : str -> str.

(** [process_file], as a function of what the file system answers:
    [file_extension] is [file_path.suffix], [file] the result of reading,
    [write_succeeds] whether rewriting raises no exception. *)
Definition process_file (file_extension : str) (file : read_result)
           (write_succeeds : bool) (dry_run remove_all_comments : bool)
  : file_effect * notice :=
  match dict_get LANGUAGE_MAP (lower file_extension) with
  | None => (Untouched, Skipping_unsupported)
  | Some _ =>
    match file with
    | ReadText content =>
      let new_content :=
          process_code_content lower content file_extension remove_all_comments in
      if negb (str_eqb content new_content) then
        if dry_run then (Untouched, Would_modify)
        else if write_succeeds then (Written new_content, Modified)
        else (WriteFailed, Error_processing)
      else (Untouched, No_changes_needed)
    | ReadUnicodeDecodeError => (Untouched, Skipping_not_text)
    | ReadOtherError => (Untouched, Error_processing)
    end
  end.
End ProcessFile.

(** ** [summary.py]: [is_allowed_path] *)

Module Summary.

(** [s.split(sep)] for a one-character separator. *)
Fixpoint split_on (sep : char) (s : str) : list str :=
  match s with
  | [] => [[]]
  | c :: s' =>
    if (c =? sep)%N then [] :: split_on sep s'
    else match split_on sep s' with
         | l :: ls => (c :: l) :: ls
         | [] => [[c]]
         end
  end.

(** [s.startswith(prefix)]. *)
Fixpoint startswith (s prefix : str) {struct prefix} : bool :=
  match prefix with
  | [] => true
  | p :: prefix' =>
    match s with
    | [] => false
    | c :: s' => (c =? p)%N && startswith s' prefix'
    end
  end.

(** [os.sep] is the parameter [sep].  The two nested loops return [False]
    at the first part that starts with a banned prefix. *)
Definition is_allowed_path (sep : char) (path : str) (banned_prefixes : list str) : bool :=
  negb (existsb (fun part => existsb (fun prefix => startswith part prefix) banned_prefixes)
                (split_on sep path)).

End Summary.

(** ** Vocabulary of the statements *)

(** [a] is an initial segment of [b]. *)
Definition prefix (a b : str) : Prop := exists t, b = a ++ t.

(** A line holds no newline. *)
Definition no_nl (l : str) : Prop := ~ In nl l.

(** What a successful match of [r] consumed necessarily looks like (the
    anchors say nothing about the consumed text itself). *)
Fixpoint shape (r : regex) (w : str) : Prop :=
  match r with
  | [] => w = []
  | a :: r' =>
    match a with
    | Bol | Eol => shape r' w
    | Chr c => exists w', w = c :: w' /\ shape r' w'
    | Star p | StarLazy p =>
      exists u w', w = u ++ w' /\ forallb p u = true /\ shape r' w'
    | Plus p =>
      exists x u w', w = x :: u ++ w' /\ p x = true /\ forallb p u = true /\ shape r' w'
    end
  end.

(** The characters that open a comment in a family, [mk], and what the
    patterns of the family have in common: group 1 of an inline pattern is
    [^[^...]*] over a class that excludes the opening characters, group 2
    asks for blanks and then a text with an opening character; a full-line
    pattern is [^\s*] followed by an opening character. *)
Definition inline_ok (mk : char -> bool) (p : regex2) : Prop :=
  (exists cs, g1 p = [Bol; Star (none_of cs)] /\ forall c, mk c = true -> In c cs) /\
  (exists q r', g2 p = Plus q :: r' /\ exists c, In (Chr c) r' /\ mk c = true).

Definition full_ok (mk : char -> bool) (p : regex) : Prop :=
  exists c r', p = Bol :: Star isspace :: Chr c :: r' /\ mk c = true.

Record well_formed (mk : char -> bool) (d : lang_def) : Prop := {
  wf_space : forall c, mk c = true -> isspace c = false;
  wf_inline : Forall (inline_ok mk) (inline d);
  wf_full : Forall (full_ok mk) (full_line d)
}.

(** The lines of a text file: the pieces between newlines, a final newline
    terminating the last line instead of opening an empty one. *)
Definition file_lines (s : str) : list str :=
  let pieces := split_nl s in
  if is_empty (last pieces []) then removelast pieces else pieces.

(** No character of [s] opens a comment. *)
Definition unmarked (mk : char -> bool) (s : str) : Prop :=
  forall c, In c s -> mk c = false.

(** The characters that open a comment in a definition: the first character
    after [^\s*] of its full-line patterns. *)
Definition opener_of (p : regex) : option char :=
  match p with
  | Bol :: Star _ :: Chr c :: _ => Some c
  | _ => None
  end.

Definition openers (d : lang_def) (c : char) : bool :=
  existsb (fun p => match opener_of p with
                    | Some x => (c =? x)%N
                    | None => false
                    end) (full_line d).

(** The text of a line before its first comment-opening character. *)
Fixpoint before_opener (mk : char -> bool) (s : str) : str :=
  match s with
  | [] => []
  | c :: s' => if mk c then [] else c :: before_opener mk s'
  end.

(** A line with something else than whitespace on it. *)
Definition nonblank (l : str) : bool := negb (is_empty (strip l)).

Definition nonempty (l : str) : bool := negb (is_empty l).

(** The inline patterns of a family, more precisely than [inline_ok]: in
    group 2 the opening character follows the blanks at once. *)
Definition inline_cut (mk : char -> bool) (p : regex2) : Prop :=
  (exists cs, g1 p = [Bol; Star (none_of cs)] /\ forall c, mk c = true -> In c cs) /\
  (exists c r', g2 p = Plus blank :: Chr c :: r' /\ mk c = true).

(** No two consecutive lines are both empty. *)
Fixpoint no_double (ls : list str) : bool :=
  match ls with
  | [] => true
  | a :: t =>
    match t with
    | b :: _ => negb (is_empty a && is_empty b)
    | [] => true
    end && no_double t
  end.

(** What the blank-line clean-up produces: no two empty lines in a row, no
    empty line first or last, and no line of whitespace only. *)
Record canonical (ls : list str) : Prop := {
  can_double : no_double ls = true;
  can_ends : ls = [] \/ (hd [] ls <> [] /\ last ls [] <> []);
  can_lines : forall l, In l ls -> l = [] \/ strip l <> []
}.

(** * Facts *)

(** ** Strings and lines *)

Lemma prefix_refl (a : str) : prefix a a.
Proof. exists []. now rewrite app_nil_r. Qed.

Lemma prefix_trans (a b c : str) : prefix a b -> prefix b c -> prefix a c.
Proof.
  intros [t ->] [u ->]. exists (t ++ u). now rewrite app_assoc.
Qed.

Lemma prefix_length (a b : str) : prefix a b -> length a <= length b.
Proof. intros [t ->]. rewrite length_app. lia. Qed.

Lemma prefix_firstn (n : nat) (s : str) : prefix (firstn n s) s.
Proof. exists (skipn n s). symmetry. apply firstn_skipn. Qed.

Lemma prefix_In (a b : str) (c : char) : prefix a b -> In c a -> In c b.
Proof. intros [t ->] H. apply in_or_app. now left. Qed.

Lemma is_empty_true (s : str) : is_empty s = true <-> s = [].
Proof. destruct s; simpl; split; congruence. Qed.

Lemma is_empty_false (s : str) : is_empty s = false <-> s <> [].
Proof. destruct s; simpl; split; congruence. Qed.

Lemma str_eqb_eq (a b : str) : str_eqb a b = true <-> a = b.
Proof. unfold str_eqb. destruct (list_eq_dec N.eq_dec a b); split; congruence. Qed.

Lemma str_eqb_refl (a : str) : str_eqb a a = true.
Proof. now apply str_eqb_eq. Qed.

Lemma str_eqb_neq (a b : str) : str_eqb a b = false <-> a <> b.
Proof. unfold str_eqb. destruct (list_eq_dec N.eq_dec a b); split; congruence. Qed.

Lemma rstrip_by_split (p : char -> bool) (s : str) :
  exists t, s = rstrip_by p s ++ t /\ forallb p t = true.
Proof.
  induction s as [|c s [t [E Ht]]]; simpl.
  - now exists [].
  - destruct (rstrip_by p s) as [|x r] eqn:Er.
    + destruct (p c) eqn:Pc.
      * exists (c :: t). simpl in *. rewrite Pc, Ht. now subst s.
      * exists t. simpl in *. split; [now subst s | assumption].
    + exists t. split; [|assumption]. simpl. now rewrite E at 1.
Qed.

Lemma rstrip_by_prefix (p : char -> bool) (s : str) : prefix (rstrip_by p s) s.
Proof. destruct (rstrip_by_split p s) as [t [E _]]. now exists t. Qed.

Lemma rstrip_by_nil (p : char -> bool) (s : str) :
  rstrip_by p s = [] <-> forallb p s = true.
Proof.
  induction s as [|c s IH]; simpl; [tauto|].
  destruct (rstrip_by p s) as [|x r] eqn:Er.
  - destruct (p c); simpl; split; try congruence.
    + intros _. now apply IH.
  - split; [congruence|]. intros H. apply andb_true_iff in H as [_ H].
    apply IH in H. congruence.
Qed.

Lemma rstrip_by_fix (p : char -> bool) (s : str) :
  forallb p s = false -> rstrip_by p s <> [].
Proof. intros H E. apply rstrip_by_nil in E. congruence. Qed.

Lemma rstrip_by_last (p : char -> bool) (s : str) (c : char) :
  last (rstrip_by p s) c = c \/ p (last (rstrip_by p s) c) = false.
Proof.
  induction s as [|x s IH]; simpl; [now left|].
  destruct (rstrip_by p s) as [|y r] eqn:Er.
  - destruct (p x) eqn:Px; simpl; [now left | now right].
  - change (last (x :: y :: r) c) with (last (y :: r) c). exact IH.
Qed.

Lemma lstrip_by_nil (p : char -> bool) (s : str) :
  lstrip_by p s = [] <-> forallb p s = true.
Proof.
  induction s as [|c s IH]; simpl; [tauto|].
  destruct (p c); simpl; [exact IH | split; congruence].
Qed.

Lemma lstrip_by_split (p : char -> bool) (s : str) :
  exists w, s = w ++ lstrip_by p s /\ forallb p w = true.
Proof.
  induction s as [|c s [w [E Hw]]]; simpl.
  - now exists [].
  - destruct (p c) eqn:Pc.
    + exists (c :: w). simpl. rewrite Pc, Hw. split; [now rewrite E at 1 | reflexivity].
    + now exists [].
Qed.

Lemma lstrip_by_head (p : char -> bool) (s : str) (c : char) (t : str) :
  lstrip_by p s = c :: t -> p c = false.
Proof.
  induction s as [|x s IH]; simpl; [discriminate|].
  destruct (p x) eqn:Px; [exact IH|]. intros E. injection E as -> _. exact Px.
Qed.

Lemma rstrip_by_head (p : char -> bool) (s : str) (c : char) (t : str) :
  rstrip_by p s = c :: t -> exists t', s = c :: t'.
Proof.
  destruct (rstrip_by_prefix p s) as [u E]. intros H. rewrite H in E.
  now exists (t ++ u).
Qed.

(** The stripped line is empty exactly when the line is all whitespace. *)
Lemma strip_nil (s : str) : strip s = [] <-> forallb isspace s = true.
Proof.
  unfold strip. rewrite rstrip_by_nil.
  destruct (lstrip_by_split isspace s) as [w [E Hw]].
  split; intros H.
  - rewrite E, forallb_app, Hw, H. reflexivity.
  - rewrite E, forallb_app in H. now apply andb_true_iff in H.
Qed.

(** A stripped line starts with a character that is not whitespace,
    preceded in the line by whitespace only. *)
Lemma strip_head (s : str) (c : char) (t : str) :
  strip s = c :: t ->
  isspace c = false /\ exists w t', s = w ++ c :: t' /\ forallb isspace w = true.
Proof.
  unfold strip. intros H.
  destruct (rstrip_by_head _ _ _ _ H) as [t' E].
  split; [exact (lstrip_by_head _ _ _ _ E)|].
  destruct (lstrip_by_split isspace s) as [w [Es Hw]].
  exists w, t'. now rewrite <- E.
Qed.

Lemma rstrip_nil (s : str) : rstrip s = [] <-> forallb isspace s = true.
Proof. apply rstrip_by_nil. Qed.

Lemma strip_rstrip_nil (s : str) : strip s = [] <-> rstrip s = [].
Proof. now rewrite strip_nil, rstrip_nil. Qed.

Lemma prefix_app_stop (a w : str) (c : char) (t : str) :
  prefix a (w ++ c :: t) -> ~ In c a -> prefix a w.
Proof.
  revert a. induction w as [|x w IH]; intros a [u E] N.
  - destruct a as [|y a]; [apply prefix_refl|]. exfalso. apply N.
    simpl in E. injection E as -> _. now left.
  - destruct a as [|y a]; [now exists (x :: w)|].
    simpl in E. injection E as <- E.
    destruct (IH a) as [v ->]; [now exists u | intros I; apply N; now right|].
    now exists v.
Qed.

Lemma no_nl_prefix (a b : str) : prefix a b -> no_nl b -> no_nl a.
Proof. intros P H I. apply H. exact (prefix_In a b nl P I). Qed.

Lemma no_nl_nil : no_nl [].
Proof. intros []. Qed.

Lemma split_nl_not_nil (s : str) : split_nl s <> [].
Proof.
  destruct s as [|c s]; simpl; [discriminate|].
  destruct (c =? nl)%N; [discriminate|].
  destruct (split_nl s); discriminate.
Qed.

Lemma split_nl_no_nl (s : str) : Forall no_nl (split_nl s).
Proof.
  induction s as [|c s IH]; simpl.
  - constructor; [apply no_nl_nil | constructor].
  - destruct (N.eqb_spec c nl) as [->|Hc].
    + constructor; [apply no_nl_nil | exact IH].
    + destruct (split_nl s) as [|l ls] eqn:E; [exfalso; now apply (split_nl_not_nil s)|].
      inversion IH as [|? ? Hl Hls]; subst. constructor; [|exact Hls].
      intros [E'|I]; [now apply Hc | now apply Hl].
Qed.

Lemma split_nl_line (l s : str) :
  no_nl l -> split_nl (l ++ nl :: s) = l :: split_nl s.
Proof.
  induction l as [|c l IH]; intros H; simpl.
  - reflexivity.
  - destruct (N.eqb_spec c nl) as [->|Hc]; [exfalso; apply H; now left|].
    rewrite IH; [reflexivity|]. intros I. apply H. now right.
Qed.

Lemma split_nl_single (l : str) : no_nl l -> split_nl l = [l].
Proof.
  induction l as [|c l IH]; intros H; simpl; [reflexivity|].
  destruct (N.eqb_spec c nl) as [->|Hc]; [exfalso; apply H; now left|].
  rewrite IH; [reflexivity|]. intros I. apply H. now right.
Qed.

Lemma join_nl_cons (l : str) (ls : list str) :
  ls <> [] -> join_nl (l :: ls) = l ++ nl :: join_nl ls.
Proof. destruct ls; [congruence | reflexivity]. Qed.

(** Splitting what was joined gives the lines back. *)
Lemma split_join (ls : list str) :
  ls <> [] -> Forall no_nl ls -> split_nl (join_nl ls) = ls.
Proof.
  induction ls as [|l ls IH]; [congruence|]. intros _ H.
  inversion H as [|? ? Hl Hls]; subst.
  destruct ls as [|l' ls'].
  - simpl. now apply split_nl_single.
  - rewrite join_nl_cons by discriminate.
    rewrite split_nl_line by assumption. f_equal. apply IH; [discriminate | assumption].
Qed.

Lemma join_split (s : str) : join_nl (split_nl s) = s.
Proof.
  induction s as [|c s IH]; simpl; [reflexivity|].
  destruct (N.eqb_spec c nl) as [->|Hc].
  - rewrite join_nl_cons by apply split_nl_not_nil. simpl. now rewrite IH.
  - destruct (split_nl s) as [|l ls] eqn:E; [exfalso; now apply (split_nl_not_nil s)|].
    rewrite <- IH. destruct ls; reflexivity.
Qed.

Lemma join_nl_snoc (ls : list str) (l : str) :
  ls <> [] -> join_nl (ls ++ [l]) = join_nl ls ++ nl :: l.
Proof.
  induction ls as [|x ls IH]; [congruence|]. intros _.
  destruct ls as [|y ls'].
  - reflexivity.
  - change ((x :: y :: ls') ++ [l]) with (x :: ((y :: ls') ++ [l])).
    rewrite join_nl_cons by (destruct ls'; discriminate).
    rewrite IH by discriminate.
    rewrite (join_nl_cons x (y :: ls')) by discriminate.
    now rewrite <- app_assoc.
Qed.

Lemma join_nl_nil (ls : list str) : join_nl ls = [] -> ls = [] \/ ls = [[]].
Proof.
  destruct ls as [|l ls]; [now left|]. destruct ls as [|l' ls'].
  - simpl. intros ->. now right.
  - rewrite join_nl_cons by discriminate. intros E.
    apply app_eq_nil in E as [_ E]. discriminate.
Qed.

Lemma endswith_nl_snoc (s : str) (c : char) :
  endswith_nl (s ++ [c]) = (c =? nl)%N.
Proof.
  induction s as [|x s IH]; [reflexivity|].
  simpl. destruct (s ++ [c]) eqn:E; [now destruct s | exact IH].
Qed.

Lemma endswith_nl_last (s : str) :
  endswith_nl s = true <-> exists s', s = s' ++ [nl].
Proof.
  split.
  - intros H. destruct s as [|x s]; [discriminate|].
    destruct (@exists_last _ (x :: s)) as [s' [c E]]; [discriminate|].
    rewrite E in H. rewrite endswith_nl_snoc in H. apply N.eqb_eq in H.
    subst c. now exists s'.
  - intros [s' ->]. now rewrite endswith_nl_snoc.
Qed.

Lemma endswith_nl_no_nl (l : str) : no_nl l -> endswith_nl l = false.
Proof.
  intros H. destruct (endswith_nl l) eqn:E; [|reflexivity].
  apply endswith_nl_last in E as [s' ->]. exfalso. apply H.
  apply in_or_app. right. now left.
Qed.

Lemma endswith_nl_app (a b : str) :
  b <> [] -> endswith_nl (a ++ b) = endswith_nl b.
Proof.
  intros Hb. destruct (@exists_last _ b Hb) as [b' [c ->]].
  now rewrite app_assoc, !endswith_nl_snoc.
Qed.

(** The joined text ends with a newline exactly when there are at least two
    lines and the last one is empty. *)
Lemma endswith_nl_join (ls : list str) :
  Forall no_nl ls ->
  endswith_nl (join_nl ls) = Nat.ltb 1 (length ls) && is_empty (last ls []).
Proof.
  intros H. destruct ls as [|l ls]; [reflexivity|].
  destruct (@exists_last _ (l :: ls)) as [ls' [x E]]; [discriminate|].
  rewrite E in *. rewrite last_last, length_app. simpl.
  apply Forall_app in H as [_ Hx]. inversion Hx as [|? ? Hx' _]; subst.
  destruct ls' as [|y ls''].
  - simpl. now apply endswith_nl_no_nl.
  - rewrite join_nl_snoc by discriminate.
    replace (Nat.ltb 1 (length (y :: ls'') + 1)) with true
      by (symmetry; apply Nat.ltb_lt; simpl; lia).
    simpl andb. destruct x as [|c x].
    + change (nl :: []) with [nl]. now rewrite endswith_nl_snoc.
    + rewrite endswith_nl_app by discriminate.
      replace (nl :: c :: x) with ([nl] ++ c :: x) by reflexivity.
      rewrite endswith_nl_app by discriminate.
      now apply endswith_nl_no_nl.
Qed.

Lemma endswith_nl_split (s : str) :
  endswith_nl s = Nat.ltb 1 (length (split_nl s)) && is_empty (last (split_nl s) []).
Proof.
  rewrite <- (join_split s) at 1. apply endswith_nl_join, split_nl_no_nl.
Qed.

Lemma rstrip_nl_not_endswith (s : str) : endswith_nl (rstrip_nl s) = false.
Proof.
  unfold rstrip_nl. destruct (endswith_nl _) eqn:E; [|reflexivity].
  apply endswith_nl_last in E as [s' E].
  destruct (rstrip_by_last (N.eqb nl) s nl) as [H|H];
    rewrite E, last_last in H.
  - clear H. assert (H := rstrip_by_last (N.eqb nl) s 0%N).
    rewrite E, last_last in H. destruct H as [H|H]; [discriminate H|].
    now rewrite N.eqb_refl in H.
  - now rewrite N.eqb_refl in H.
Qed.

(** ** The matcher *)

Section ExecFacts.
Variable R : Type.
Implicit Types (k : nat -> str -> option R) (m : R).

Lemma star_loop_inv p k pos s m :
  star_loop p k pos s = Some m ->
  exists u rest, s = u ++ rest /\ forallb p u = true /\
                 k (pos + length u) rest = Some m.
Proof.
  revert pos. induction s as [|c s IH]; intros pos; simpl.
  - intros H. exists [], []. simpl. now rewrite Nat.add_0_r.
  - destruct (p c) eqn:Pc.
    + destruct (star_loop p k (S pos) s) as [m'|] eqn:E.
      * intros H. injection H as ->. destruct (IH _ E) as [u [rest [Es [Hu Hk]]]].
        exists (c :: u), rest. simpl. rewrite Pc, Hu, Es.
        repeat split. now rewrite Nat.add_succ_r.
      * intros H. exists [], (c :: s). simpl. now rewrite Nat.add_0_r.
    + intros H. exists [], (c :: s). simpl. now rewrite Nat.add_0_r.
Qed.

Lemma lazy_loop_inv p k pos s m :
  lazy_loop p k pos s = Some m ->
  exists u rest, s = u ++ rest /\ forallb p u = true /\
                 k (pos + length u) rest = Some m.
Proof.
  revert pos. induction s as [|c s IH]; intros pos; simpl.
  - destruct (k pos []) eqn:E; [|discriminate].
    intros H. injection H as ->. exists [], []. simpl. now rewrite Nat.add_0_r.
  - destruct (k pos (c :: s)) eqn:E.
    + intros H. injection H as ->. exists [], (c :: s). simpl. now rewrite Nat.add_0_r.
    + destruct (p c) eqn:Pc; [|discriminate]. intros H.
      destruct (IH _ H) as [u [rest [Es [Hu Hk]]]].
      exists (c :: u), rest. simpl. rewrite Pc, Hu, Es.
      repeat split. now rewrite Nat.add_succ_r.
Qed.

(** Soundness of the matcher: a success splits the subject into the
    consumed text, of the pattern's shape, and the rest, on which the
    continuation succeeded. *)
Lemma exec_inv r : forall k pos s m,
  exec r k pos s = Some m ->
  exists w rest, s = w ++ rest /\ shape r w /\ k (pos + length w) rest = Some m.
Proof.
  induction r as [|a r IH]; intros k pos s m H.
  - exists [], s. simpl in *. now rewrite Nat.add_0_r.
  - destruct a as [| |c|p|p|p]; simpl in H.
    + destruct (Nat.eqb pos 0); [|discriminate]. exact (IH _ _ _ _ H).
    + destruct (at_eol s); [|discriminate]. exact (IH _ _ _ _ H).
    + destruct s as [|x s]; [discriminate|].
      destruct (N.eqb_spec x c) as [->|]; [|discriminate].
      destruct (IH _ _ _ _ H) as [w [rest [Es [Hw Hk]]]].
      exists (c :: w), rest. simpl. rewrite Es, Nat.add_succ_r.
      repeat split; [|exact Hk]. now exists w.
    + destruct (star_loop_inv _ _ _ _ _ H) as [u [s' [Es [Hu H']]]].
      destruct (IH _ _ _ _ H') as [w [rest [Es' [Hw Hk]]]].
      exists (u ++ w), rest. rewrite length_app, Nat.add_assoc, <- app_assoc, <- Es'.
      repeat split; [exact Es| |exact Hk]. now exists u, w.
    + destruct s as [|x s]; [discriminate|].
      destruct (p x) eqn:Px; [|discriminate].
      destruct (star_loop_inv _ _ _ _ _ H) as [u [s' [Es [Hu H']]]].
      destruct (IH _ _ _ _ H') as [w [rest [Es' [Hw Hk]]]].
      exists (x :: u ++ w), rest. simpl. rewrite length_app, <- app_assoc, <- Es', <- Es.
      repeat split.
      * now exists x, u, w.
      * rewrite <- Hk. f_equal. lia.
    + destruct (lazy_loop_inv _ _ _ _ _ H) as [u [s' [Es [Hu H']]]].
      destruct (IH _ _ _ _ H') as [w [rest [Es' [Hw Hk]]]].
      exists (u ++ w), rest. rewrite length_app, Nat.add_assoc, <- app_assoc, <- Es'.
      repeat split; [exact Es| |exact Hk]. now exists u, w.
Qed.
End ExecFacts.

(** Every literal character of the pattern occurs in the matched text. *)
Lemma shape_chr_in (c : char) (r : regex) : forall w,
  shape r w -> In (Chr c) r -> In c w.
Proof.
  induction r as [|a r IH]; intros w Hw Hin; [destruct Hin|].
  destruct Hin as [->|Hin].
  - simpl in Hw. destruct Hw as [w' [-> _]]. now left.
  - destruct a as [| |c'|p|p|p]; simpl in Hw.
    + now apply IH.
    + now apply IH.
    + destruct Hw as [w' [-> Hw]]. right. now apply IH.
    + destruct Hw as [u [w' [-> [_ Hw]]]]. apply in_or_app. right. now apply IH.
    + destruct Hw as [x [u [w' [-> [_ [_ Hw]]]]]]. right. apply in_or_app. right.
      now apply IH.
    + destruct Hw as [u [w' [-> [_ Hw]]]]. apply in_or_app. right. now apply IH.
Qed.

(** A two-group match splits the line into group 1, group 2 and a rest. *)
Lemma re_match2_inv (r : regex2) (s : str) (m : nat * nat) :
  re_match2 r s = Some m ->
  exists w1 w2 rest,
    s = w1 ++ w2 ++ rest /\ shape (g1 r) w1 /\ shape (g2 r) w2 /\
    group1 m s = w1.
Proof.
  unfold re_match2. intros H.
  destruct (exec_inv _ _ _ _ _ _ H) as [w1 [s1 [Es [H1 H']]]].
  destruct (exec_inv _ _ _ _ _ _ H') as [w2 [rest [Es1 [H2 Hk]]]].
  exists w1, w2, rest. rewrite <- Es1. repeat split; try assumption.
  injection Hk as <-. unfold group1. simpl.
  rewrite Es, firstn_app, firstn_all, Nat.sub_diag. simpl. apply app_nil_r.
Qed.

Lemma re_fullmatch_inv (r : regex) (s : str) :
  re_fullmatch r s = true -> shape r s.
Proof.
  unfold re_fullmatch.
  destruct (exec _ _ _ _) as [e|] eqn:H; [|discriminate]. intros _.
  destruct (exec_inv _ _ _ _ _ _ H) as [w [rest [Es [Hw Hk]]]].
  destruct rest; [|discriminate]. rewrite app_nil_r in Es. now subst.
Qed.

(** ** The pattern table *)

Lemma one_of_In (cs : str) (c : char) : one_of cs c = true <-> In c cs.
Proof.
  unfold one_of. rewrite existsb_exists. split.
  - intros [x [Hx E]]. apply N.eqb_eq in E. now subst.
  - intros H. exists c. split; [assumption | apply N.eqb_refl].
Qed.

Lemma none_of_In (cs : str) (c : char) : none_of cs c = true <-> ~ In c cs.
Proof.
  unfold none_of. rewrite negb_true_iff, <- one_of_In. unfold one_of.
  destruct (existsb _ _); split; congruence.
Qed.

Ltac table_facts :=
  cbv [python_like c_like c_like_line_only xml_like css_like php_like
       inline full_line];
  repeat match goal with
  | |- Forall _ [] => constructor
  | |- Forall _ (_ :: _) => constructor
  | |- inline_ok _ _ => split
  | |- full_ok _ _ => eexists; eexists; split; [reflexivity|reflexivity]
  | |- exists cs, _ = [Bol; Star (none_of cs)] /\ _ =>
    eexists; split; [reflexivity|];
    let c := fresh "c" in let H := fresh "H" in
    intros c H; apply one_of_In in H; vm_compute in H; vm_compute; tauto
  | |- exists q r', _ = Plus q :: r' /\ _ =>
    eexists; eexists; split; [reflexivity|]
  end.

Ltac space_facts :=
  let c := fresh "c" in let H := fresh "H" in
  intros c H; apply one_of_In in H; vm_compute in H;
  repeat (destruct H as [H|H]; [subst c; reflexivity|]); destruct H.

Lemma python_like_wf : well_formed (one_of (py "#")) python_like.
Proof.
  split; [space_facts| |]; table_facts.
  exists 35%N. split; [vm_compute; tauto | reflexivity].
Qed.

Lemma c_like_wf : well_formed (one_of (py "/")) c_like.
Proof.
  split; [space_facts| |]; table_facts;
    (exists 47%N; split; [vm_compute; tauto | reflexivity]).
Qed.

Lemma c_like_line_only_wf : well_formed (one_of (py "/")) c_like_line_only.
Proof.
  split; [space_facts| |]; table_facts;
    (exists 47%N; split; [vm_compute; tauto | reflexivity]).
Qed.

Lemma xml_like_wf : well_formed (one_of (py "<")) xml_like.
Proof.
  split; [space_facts| |]; table_facts;
    (exists 60%N; split; [vm_compute; tauto | reflexivity]).
Qed.

Lemma css_like_wf : well_formed (one_of (py "/")) css_like.
Proof.
  split; [space_facts| |]; table_facts;
    (exists 47%N; split; [vm_compute; tauto | reflexivity]).
Qed.

Lemma php_like_wf : well_formed (one_of (py "/#")) php_like.
Proof.
  split; [space_facts| |]; table_facts.
  - exists 47%N; split; [vm_compute; tauto | reflexivity].
  - exists 35%N; split; [vm_compute; tauto | reflexivity].
  - exists 47%N; split; [vm_compute; tauto | reflexivity].
Qed.

Lemma dict_get_In (dct : list (str * lang_def)) (key : str) (d : lang_def) :
  dict_get dct key = Some d -> exists k, In (k, d) dct.
Proof.
  induction dct as [|[k v] dct IH]; simpl; [discriminate|].
  destruct (str_eqb k key).
  - intros H. injection H as ->. exists k. now left.
  - intros H. destruct (IH H) as [k' Hk]. exists k'. now right.
Qed.

(** Every definition the extension table can return is of the common form. *)
Lemma LANGUAGE_MAP_wf (key : str) (d : lang_def) :
  dict_get LANGUAGE_MAP key = Some d -> exists mk, well_formed mk d.
Proof.
  intros H. apply dict_get_In in H as [k H]. unfold LANGUAGE_MAP in H.
  repeat (destruct H as [H|H];
          [injection H as _ <-;
           eauto using python_like_wf, c_like_wf, c_like_line_only_wf,
                       xml_like_wf, css_like_wf, php_like_wf|]).
  destruct H.
Qed.

(** ** One line *)

Section LineFacts.
Variable mk : char -> bool.
Variable d : lang_def.
Hypothesis wf : well_formed mk d.

Lemma unmarked_prefix (a b : str) : prefix a b -> unmarked mk b -> unmarked mk a.
Proof. intros P H c I. apply H. exact (prefix_In a b c P I). Qed.

Lemma unmarked_nil : unmarked mk [].
Proof. intros c []. Qed.

(** A successful inline match: group 1 is a proper initial segment of the
    line without opening character, and the line has one. *)
Lemma inline_match_facts (p : regex2) (s : str) (m : nat * nat) :
  inline_ok mk p -> re_match2 p s = Some m ->
  prefix (group1 m s) s /\ length (group1 m s) < length s /\
  unmarked mk (group1 m s) /\ ~ unmarked mk s.
Proof.
  intros [[cs [E1 Hcs]] [q [r' [E2 [c [Hc Mc]]]]]] H.
  destruct (re_match2_inv _ _ _ H) as [w1 [w2 [rest [Es [H1 [H2 G]]]]]].
  rewrite G. rewrite E1 in H1. rewrite E2 in H2. simpl in H1, H2.
  destruct H1 as [u [w' [-> [Hu ->]]]]. rewrite app_nil_r in *.
  destruct H2 as [x [v [w' [-> [_ [_ Hw']]]]]].
  repeat split.
  - now exists ((x :: v ++ w') ++ rest).
  - rewrite Es, !length_app. simpl. lia.
  - intros a Ha. destruct (mk a) eqn:Ma; [|reflexivity].
    rewrite forallb_forall in Hu. specialize (Hu a Ha).
    apply none_of_In in Hu. exfalso. now apply Hu, Hcs.
  - intros U. assert (I : In c s).
    { rewrite Es. apply in_or_app. right. apply in_or_app. left.
      right. apply in_or_app. right. exact (shape_chr_in c r' w' Hw' Hc). }
    rewrite (U c I) in Mc. discriminate.
Qed.

(** One pattern application leaves the line alone or cuts it strictly
    shorter, down to an initial segment without opening character. *)
Lemma apply_inline_facts (ra : bool) (p : regex2) (s : str) :
  inline_ok mk p ->
  apply_inline ra s p = s \/
  (length (apply_inline ra s p) < length s /\ prefix (apply_inline ra s p) s /\
   unmarked mk (apply_inline ra s p) /\ ~ unmarked mk s).
Proof.
  intros Hp. unfold apply_inline.
  destruct (re_match2 p s) as [m|] eqn:E; [|now left].
  destruct (inline_match_facts p s m Hp E) as [P [L [U N]]].
  assert (C : length (rstrip (group1 m s)) < length s /\
              prefix (rstrip (group1 m s)) s /\
              unmarked mk (rstrip (group1 m s)) /\ ~ unmarked mk s).
  { assert (Q := rstrip_by_prefix isspace (group1 m s)). repeat split.
    - apply prefix_length in Q. unfold rstrip. lia.
    - exact (prefix_trans _ _ _ Q P).
    - exact (unmarked_prefix _ _ Q U).
    - exact N. }
  destruct ra; [now right|].
  destruct (negb (is_empty (strip (group1 m s)))); [now right | now left].
Qed.

Lemma apply_inline_unmarked (ra : bool) (p : regex2) (s : str) :
  inline_ok mk p -> unmarked mk s -> apply_inline ra s p = s.
Proof.
  intros Hp U. destruct (apply_inline_facts ra p s Hp) as [E|[_ [_ [_ N]]]];
    [assumption | contradiction].
Qed.

Lemma fold_inline_facts (ra : bool) (ps : list regex2) : forall s,
  Forall (inline_ok mk) ps ->
  fold_left (apply_inline ra) ps s = s \/
  (length (fold_left (apply_inline ra) ps s) < length s /\
   prefix (fold_left (apply_inline ra) ps s) s /\
   unmarked mk (fold_left (apply_inline ra) ps s)).
Proof.
  induction ps as [|p ps IH]; intros s H; [now left|].
  inversion H as [|? ? Hp Hps]; subst. simpl.
  destruct (apply_inline_facts ra p s Hp) as [E|[L [P [U _]]]].
  - rewrite E. now apply IH.
  - right. destruct (IH (apply_inline ra s p) Hps) as [E'|[L' [P' U']]].
    + rewrite E'. now repeat split.
    + repeat split; [lia | exact (prefix_trans _ _ _ P' P) | exact U'].
Qed.

Lemma inline_pass_facts (ra : bool) (s : str) :
  inline_pass d ra s = s \/
  (length (inline_pass d ra s) < length s /\ prefix (inline_pass d ra s) s /\
   unmarked mk (inline_pass d ra s)).
Proof. apply fold_inline_facts, wf. Qed.

Lemma inline_pass_unmarked (ra : bool) (s : str) :
  unmarked mk s -> inline_pass d ra s = s.
Proof.
  unfold inline_pass. assert (H := wf_inline _ _ wf).
  induction H as [|p ps Hp Hps IH]; intros U; [reflexivity|].
  simpl. rewrite (apply_inline_unmarked ra p s Hp U). now apply IH.
Qed.

(** The [while] loop, whatever the state it is entered in: with more fuel
    than the line has characters it exits, on an initial segment of the line
    that a further pass leaves alone. *)
Lemma inline_while_facts (ra : bool) : forall fuel previous s,
  length s < fuel ->
  exists r, inline_while d ra fuel previous s = Some r /\
            prefix r s /\
            (r = s \/ unmarked mk r) /\
            (previous = s \/ inline_pass d ra r = r).
Proof.
  induction fuel as [|fuel IH]; intros previous s L; [lia|].
  simpl. destruct (str_eqb previous s) eqn:E.
  - apply str_eqb_eq in E. exists s. repeat split;
      [apply prefix_refl | now left | now left].
  - destruct (inline_pass_facts ra s) as [Ep|[L' [P' U']]].
    + rewrite Ep. exists s. destruct fuel; simpl; rewrite str_eqb_refl;
        (repeat split; [apply prefix_refl | now left | now right]).
    + destruct (IH s (inline_pass d ra s)) as [r [Hr [P [A B]]]]; [lia|].
      exists r. repeat split.
      * exact Hr.
      * exact (prefix_trans _ _ _ P P').
      * right. destruct A as [->|A]; assumption.
      * right. destruct B as [B|B]; [|exact B].
        rewrite <- B in L'. lia.
Qed.

Lemma inline_while_same (ra : bool) (fuel : nat) (s : str) :
  inline_while d ra fuel s s = Some s.
Proof. destruct fuel; simpl; now rewrite str_eqb_refl. Qed.

(** The loop on one line: it exits within [S (length s)] iterations. *)
Lemma strip_inline_facts (ra : bool) (s : str) :
  inline_while d ra (S (length s)) [] s = Some (strip_inline d ra s) /\
  prefix (strip_inline d ra s) s /\
  (strip_inline d ra s = s \/ unmarked mk (strip_inline d ra s)) /\
  inline_pass d ra (strip_inline d ra s) = strip_inline d ra s.
Proof.
  destruct (inline_while_facts ra (S (length s)) [] s) as [r [Hr [P [A B]]]]; [lia|].
  unfold strip_inline. rewrite Hr. repeat split; try assumption.
  destruct B as [B|B]; [|exact B]. subst s.
  destruct P as [t Pt]. symmetry in Pt. apply app_eq_nil in Pt as [-> _].
  apply inline_pass_unmarked, unmarked_nil.
Qed.

Lemma strip_inline_fixed (ra : bool) (s : str) :
  inline_pass d ra s = s -> strip_inline d ra s = s.
Proof.
  intros E. unfold strip_inline. simpl.
  destruct (str_eqb [] s) eqn:E0.
  - apply str_eqb_eq in E0. now subst.
  - rewrite E. now rewrite inline_while_same.
Qed.

Lemma strip_inline_idem (ra : bool) (s : str) :
  strip_inline d ra (strip_inline d ra s) = strip_inline d ra s.
Proof. apply strip_inline_fixed, strip_inline_facts. Qed.

Lemma strip_inline_unmarked (ra : bool) (s : str) :
  unmarked mk s -> strip_inline d ra s = s.
Proof. intros U. now apply strip_inline_fixed, inline_pass_unmarked. Qed.

(** A line classified as a full-line comment is whitespace followed by an
    opening character. *)
Lemma full_line_head (l : str) :
  is_full_line_comment_type d l = true ->
  exists w c t, l = w ++ c :: t /\ forallb isspace w = true /\ mk c = true.
Proof.
  unfold is_full_line_comment_type. rewrite existsb_exists.
  intros [p [Hp Hm]]. apply re_fullmatch_inv in Hm.
  assert (F := wf_full _ _ wf). rewrite Forall_forall in F.
  destruct (F p Hp) as [c [r' [-> Mc]]]. simpl in Hm.
  destruct Hm as [u [w' [Es [Hu [w'' [-> _]]]]]].
  destruct u as [|y u].
  - simpl in Es. destruct (strip_head l c w'' Es) as [_ [w [t' [El Hw]]]].
    now exists w, c, t'.
  - simpl in Es. destruct (strip_head l y _ Es) as [Hy _].
    simpl in Hu. rewrite Hy in Hu. discriminate.
Qed.

Lemma full_line_unmarked (l : str) :
  unmarked mk l -> is_full_line_comment_type d l = false.
Proof.
  intros U. destruct (is_full_line_comment_type d l) eqn:E; [|reflexivity].
  destruct (full_line_head l E) as [w [c [t [-> [_ Mc]]]]].
  rewrite U in Mc; [discriminate|]. apply in_or_app. right. now left.
Qed.

Lemma process_line_prefix (ra : bool) (s : str) : prefix (process_line d ra s) s.
Proof.
  unfold process_line. destruct (ra && _); [now exists s|].
  apply strip_inline_facts.
Qed.

Lemma process_line_nil (ra : bool) : process_line d ra [] = [].
Proof.
  destruct (process_line_prefix ra []) as [t E]. symmetry in E.
  now apply app_eq_nil in E.
Qed.

Lemma process_line_unmarked (ra : bool) (s : str) :
  unmarked mk s -> process_line d ra s = s.
Proof.
  intros U. unfold process_line. rewrite (full_line_unmarked s U), andb_false_r.
  now apply strip_inline_unmarked.
Qed.

(** Processing a processed line changes nothing. *)
Lemma process_line_idem (ra : bool) (s : str) :
  process_line d ra (process_line d ra s) = process_line d ra s.
Proof.
  unfold process_line at 2 3.
  destruct (ra && is_full_line_comment_type d s) eqn:E; [apply process_line_nil|].
  destruct (strip_inline_facts ra s) as [_ [_ [[A|A] F]]].
  - rewrite A. unfold process_line. rewrite E. exact A.
  - now apply process_line_unmarked.
Qed.

Lemma fold_left_fixed (f : str -> regex2 -> str) (ps : list regex2) (s : str) :
  (forall p, In p ps -> f s p = s) -> fold_left f ps s = s.
Proof.
  induction ps as [|p ps IH]; intros H; [reflexivity|].
  simpl. rewrite (H p) by now left. apply IH. intros q Hq. apply H. now right.
Qed.

(** On a line classified as a full-line comment, whatever an inline pattern
    captures in group 1 is whitespace. *)
Lemma full_line_code_part (l : str) (p : regex2) (m : nat * nat) :
  is_full_line_comment_type d l = true ->
  In p (inline d) -> re_match2 p l = Some m -> strip (group1 m l) = [].
Proof.
  intros H Hp E. destruct (full_line_head l H) as [w [c [t [El [Hw Mc]]]]].
  assert (F := wf_inline _ _ wf). rewrite Forall_forall in F.
  destruct (inline_match_facts p l m (F p Hp) E) as [P [_ [U _]]].
  assert (Q : prefix (group1 m l) w).
  { apply (prefix_app_stop _ w c t); [now rewrite <- El|].
    intros I. rewrite (U c I) in Mc. discriminate. }
  apply strip_nil. apply forallb_forall. intros x Hx.
  rewrite forallb_forall in Hw. apply Hw. exact (prefix_In _ _ x Q Hx).
Qed.

(** So inline-only mode cuts nothing from such a line. *)
Lemma inline_only_full_line (l : str) :
  is_full_line_comment_type d l = true -> strip_inline d false l = l.
Proof.
  intros H. apply strip_inline_fixed. unfold inline_pass. apply fold_left_fixed.
  intros p Hp. unfold apply_inline.
  destruct (re_match2 p l) as [m|] eqn:E; [|reflexivity].
  now rewrite (full_line_code_part l p m H Hp E).
Qed.
End LineFacts.

(** More fuel does not change what the loop returns. *)
Lemma inline_while_mono (d : lang_def) (ra : bool) (r : str) :
  forall fuel fuel' previous s,
  fuel <= fuel' ->
  inline_while d ra fuel previous s = Some r ->
  inline_while d ra fuel' previous s = Some r.
Proof.
  induction fuel as [|fuel IH]; intros fuel' previous s L; simpl.
  - destruct (str_eqb previous s) eqn:E; [|discriminate].
    intros H. destruct fuel'; simpl; now rewrite E.
  - destruct fuel' as [|fuel']; [lia|]. simpl.
    destruct (str_eqb previous s); [easy|]. apply IH. lia.
Qed.

(** Inline-only mode never empties a line. *)
Lemma apply_inline_keeps (s : str) (p : regex2) :
  s <> [] -> apply_inline false s p <> [].
Proof.
  intros H. unfold apply_inline. destruct (re_match2 p s) as [m|]; [|exact H].
  destruct (strip (group1 m s)) as [|c t] eqn:E; [exact H|].
  simpl. intros R. apply strip_rstrip_nil in R. congruence.
Qed.

Lemma inline_pass_keeps (d : lang_def) (s : str) :
  s <> [] -> inline_pass d false s <> [].
Proof.
  unfold inline_pass. revert s. induction (inline d) as [|p ps IH]; intros s H; [exact H|].
  simpl. apply IH. now apply apply_inline_keeps.
Qed.

Lemma inline_while_keeps (d : lang_def) : forall fuel previous s r,
  inline_while d false fuel previous s = Some r -> s <> [] -> r <> [].
Proof.
  induction fuel as [|fuel IH]; intros previous s r; simpl;
    destruct (str_eqb previous s); try discriminate.
  - intros E. now injection E as <-.
  - intros E. now injection E as <-.
  - intros E H. apply (IH _ _ _ E). now apply inline_pass_keeps.
Qed.

Lemma strip_inline_keeps (d : lang_def) (s : str) :
  s <> [] -> strip_inline d false s <> [].
Proof.
  intros H. unfold strip_inline.
  destruct (inline_while d false (S (length s)) [] s) as [r|] eqn:E; [|exact H].
  exact (inline_while_keeps d _ _ _ _ E H).
Qed.

(** ** Newline fidelity *)

(** Whatever the lines, the result ends with a newline exactly when the
    original content does. *)
Lemma newline_fidelity_endswith (content : str) (lines : list str) :
  endswith_nl (newline_fidelity content lines) = endswith_nl content.
Proof.
  unfold newline_fidelity.
  remember (endswith_nl content) as had eqn:Hh.
  destruct lines as [|l ls].
  - cbn [join_nl is_empty andb negb].
    destruct (str_eqb content [nl]) eqn:E1.
    + apply str_eqb_eq in E1. now subst.
    + destruct (is_empty content) eqn:E2.
      * apply is_empty_true in E2. now subst.
      * now destruct had.
  - rewrite !andb_false_r. cbn [andb].
    destruct (is_empty (join_nl (l :: ls))) eqn:F; cbn [negb].
    + apply is_empty_true in F. rewrite F. now destruct had.
    + destruct had.
      * destruct (endswith_nl (join_nl (l :: ls))) eqn:J; cbn [negb];
          [exact J | apply endswith_nl_snoc].
      * destruct (endswith_nl (join_nl (l :: ls))) eqn:J;
          [apply rstrip_nl_not_endswith | exact J].
Qed.

Lemma newline_fidelity_nil (content : str) :
  newline_fidelity content [] = if endswith_nl content then [nl] else [].
Proof.
  unfold newline_fidelity. cbn [join_nl is_empty andb negb].
  destruct (str_eqb content [nl]) eqn:E1.
  - apply str_eqb_eq in E1. now subst.
  - destruct (is_empty content) eqn:E2.
    + apply is_empty_true in E2. now subst.
    + reflexivity.
Qed.

(** Lines whose join is not empty and does not end with a newline are joined
    and get the final newline of the original. *)
Lemma newline_fidelity_join (content : str) (lines : list str) :
  join_nl lines <> [] -> endswith_nl (join_nl lines) = false ->
  newline_fidelity content lines =
  join_nl lines ++ (if endswith_nl content then [nl] else []).
Proof.
  intros N E. unfold newline_fidelity. cbv zeta. apply is_empty_false in N.
  rewrite N, E. simpl. destruct (endswith_nl content); simpl;
    [reflexivity | now rewrite app_nil_r].
Qed.

(** Lines whose join already ends as the original does are just joined. *)
Lemma newline_fidelity_same (content : str) (lines : list str) :
  lines <> [] -> endswith_nl (join_nl lines) = endswith_nl content ->
  newline_fidelity content lines = join_nl lines.
Proof.
  intros N E. unfold newline_fidelity. cbv zeta. rewrite <- E.
  destruct lines as [|l ls]; [congruence|]. rewrite !andb_false_r.
  cbn [andb]. destruct (is_empty (join_nl (l :: ls))) eqn:F; cbn [negb].
  - apply is_empty_true in F. now rewrite F.
  - destruct (endswith_nl (join_nl (l :: ls))); reflexivity.
Qed.

(** ** Inline-only mode *)

Lemma last_map_nil (f : str -> str) (ls : list str) :
  f [] = [] -> last (map f ls) [] = f (last ls []).
Proof.
  intros H. induction ls as [|l ls IH]; simpl; [now rewrite H|].
  destruct ls; [reflexivity | exact IH].
Qed.

Section InlineOnly.
Variable mk : char -> bool.
Variable d : lang_def.
Hypothesis wf : well_formed mk d.

Lemma result_lines_inline_only (content : str) :
  result_lines d false content = map (strip_inline d false) (split_nl content).
Proof. reflexivity. Qed.

Lemma result_lines_no_nl (ra : bool) (content : str) :
  Forall no_nl (result_lines d ra content).
Proof.
  unfold result_lines. apply Forall_forall. intros l Hl.
  apply in_map_iff in Hl as [l0 [<- H0]].
  apply (no_nl_prefix _ l0); [exact (process_line_prefix mk d wf ra l0)|].
  assert (F := split_nl_no_nl (block_pass d ra content)).
  rewrite Forall_forall in F. now apply F.
Qed.

Lemma strip_inline_empty_iff (s : str) :
  is_empty (strip_inline d false s) = is_empty s.
Proof.
  destruct s as [|c s].
  - change (strip_inline d false []) with (process_line d false []).
    now rewrite (process_line_nil mk d wf).
  - simpl. apply is_empty_false. now apply strip_inline_keeps.
Qed.

(** In inline-only mode the output is the join of the processed lines. *)
Lemma inline_only_output (content : str) :
  _remove_comments_universal content d false =
  join_nl (map (strip_inline d false) (split_nl content)).
Proof.
  unfold _remove_comments_universal, final_lines.
  rewrite result_lines_inline_only.
  apply newline_fidelity_same.
  - intros E. apply map_eq_nil in E. now apply (split_nl_not_nil content).
  - rewrite endswith_nl_join
      by (rewrite <- result_lines_inline_only; apply result_lines_no_nl).
    rewrite endswith_nl_split, length_map. f_equal.
    rewrite last_map_nil.
    + apply strip_inline_empty_iff.
    + change (strip_inline d false []) with (process_line d false []).
      apply (process_line_nil mk d wf).
Qed.

Lemma inline_only_split (content : str) :
  split_nl (_remove_comments_universal content d false) =
  map (strip_inline d false) (split_nl content).
Proof.
  rewrite inline_only_output. apply split_join.
  - intros E. apply map_eq_nil in E. now apply (split_nl_not_nil content).
  - rewrite <- result_lines_inline_only. apply result_lines_no_nl.
Qed.
End InlineOnly.

(** ** Blank-line clean-up *)

Lemma no_double_snoc (acc : list str) (l : str) :
  no_double (acc ++ [l]) =
  no_double acc && match acc with
                   | [] => true
                   | _ :: _ => negb (is_empty (last acc []) && is_empty l)
                   end.
Proof.
  induction acc as [|a acc IH]; [reflexivity|].
  destruct acc as [|b acc].
  - simpl. now rewrite !andb_true_r.
  - change (no_double ((a :: b :: acc) ++ [l]))
      with (negb (is_empty a && is_empty b) && no_double ((b :: acc) ++ [l])).
    rewrite IH.
    change (no_double (a :: b :: acc))
      with (negb (is_empty a && is_empty b) && no_double (b :: acc)).
    change (last (a :: b :: acc) []) with (last (b :: acc) []).
    now rewrite andb_assoc.
Qed.

Lemma no_double_app_l (a b : list str) :
  no_double (a ++ b) = true -> no_double a = true.
Proof.
  induction a as [|x a IH]; [reflexivity|].
  destruct a as [|y a]; [reflexivity|].
  change (no_double ((x :: y :: a) ++ b))
    with (negb (is_empty x && is_empty y) && no_double ((y :: a) ++ b)).
  change (no_double (x :: y :: a))
    with (negb (is_empty x && is_empty y) && no_double (y :: a)).
  intros H. apply andb_true_iff in H as [H1 H2]. rewrite H1. now apply IH.
Qed.

Lemma no_double_app_r (a b : list str) :
  no_double (a ++ b) = true -> no_double b = true.
Proof.
  induction a as [|x a IH]; [easy|].
  intros H. apply IH. simpl in H. now apply andb_true_iff in H as [_ H].
Qed.

Lemma collapse_step_no_double (acc : list str) (l : str) :
  no_double acc = true -> no_double (collapse_step acc l) = true.
Proof.
  intros H. unfold collapse_step.
  destruct (is_empty l) eqn:E; cbn [negb].
  - destruct acc as [|a acc]; [reflexivity|].
    destruct (is_empty (last (a :: acc) [])) eqn:EL; cbn [negb]; [exact H|].
    now rewrite no_double_snoc, H, EL.
  - rewrite no_double_snoc, H, E, andb_false_r. now destruct acc.
Qed.

Lemma collapse_step_In (acc : list str) (l x : str) :
  In x (collapse_step acc l) -> In x acc \/ x = l.
Proof.
  unfold collapse_step. intros H.
  assert (S : In x (acc ++ [l]) -> In x acc \/ x = l).
  { intros I. apply in_app_or in I as [I|[I|[]]]; [now left | now right]. }
  destruct (is_empty l) eqn:E; cbn [negb] in H; [|now apply S].
  apply is_empty_true in E. subst l.
  destruct acc as [|a acc]; [now apply S|].
  destruct (is_empty (last (a :: acc) [])); cbn [negb] in H; [now left | now apply S].
Qed.


Lemma fold_collapse_no_double (ls : list str) : forall acc,
  no_double acc = true -> no_double (fold_left collapse_step ls acc) = true.
Proof.
  induction ls as [|l ls IH]; intros acc H; [exact H|].
  simpl. apply IH. now apply collapse_step_no_double.
Qed.

Lemma fold_collapse_In (ls : list str) (x : str) : forall acc,
  In x (fold_left collapse_step ls acc) -> In x acc \/ In x ls.
Proof.
  induction ls as [|l ls IH]; intros acc H; [now left|].
  simpl in H. destruct (IH _ H) as [I|I]; [|right; now right].
  destruct (collapse_step_In _ _ _ I) as [J| ->]; [now left | right; now left].
Qed.


(** The scan changes nothing in a list that has no two empty lines in a row. *)
Lemma fold_collapse_fixed (ls : list str) : forall acc,
  no_double (acc ++ ls) = true -> fold_left collapse_step ls acc = acc ++ ls.
Proof.
  induction ls as [|l ls IH]; intros acc H; [now rewrite app_nil_r|].
  simpl. replace (acc ++ l :: ls) with ((acc ++ [l]) ++ ls) in *
    by now rewrite <- app_assoc.
  assert (S : collapse_step acc l = acc ++ [l]).
  { apply no_double_app_l in H. rewrite no_double_snoc in H.
    apply andb_true_iff in H as [_ H]. unfold collapse_step.
    destruct (is_empty l) eqn:El; cbn [negb]; [|reflexivity].
    apply is_empty_true in El. subst l.
    destruct acc as [|a acc]; [reflexivity|].
    rewrite andb_true_r in H. now rewrite H. }
  rewrite S. now apply IH.
Qed.

Lemma pop_leading_split (ls : list str) :
  exists pre, ls = pre ++ pop_leading ls /\ Forall (eq []) pre.
Proof.
  induction ls as [|l ls [pre [E F]]]; [now exists []|].
  simpl. destruct (is_empty l) eqn:El.
  - apply is_empty_true in El. subst l. exists ([] :: pre). simpl.
    split; [now rewrite <- E | now constructor].
  - now exists [].
Qed.

Lemma pop_leading_head (ls : list str) :
  pop_leading ls = [] \/ hd [] (pop_leading ls) <> [].
Proof.
  induction ls as [|l ls IH]; [now left|].
  simpl. destruct (is_empty l) eqn:El; [exact IH|].
  right. simpl. now apply is_empty_false.
Qed.

Lemma pop_leading_fixed (ls : list str) :
  ls = [] \/ hd [] ls <> [] -> pop_leading ls = ls.
Proof.
  intros [->|H]; [reflexivity|]. destruct ls as [|l ls]; [reflexivity|].
  simpl in *. apply is_empty_false in H. now rewrite H.
Qed.

Lemma pop_trailing_split : forall n ls,
  exists suf, ls = pop_trailing n ls ++ suf /\ Forall (eq []) suf.
Proof.
  induction n as [|n IH]; intros ls; simpl.
  - exists []. now rewrite app_nil_r.
  - destruct (Nat.ltb 1 (length ls) && is_empty (last ls [])) eqn:C.
    + apply andb_true_iff in C as [C1 C2]. apply is_empty_true in C2.
      destruct (IH (removelast ls)) as [suf [E F]].
      exists (suf ++ [[]]). split.
      * rewrite app_assoc, <- E, <- C2. apply app_removelast_last.
        intros ->. discriminate.
      * apply Forall_app. split; [exact F | now constructor].
    + exists []. now rewrite app_nil_r.
Qed.

Lemma pop_trailing_head : forall n ls,
  hd [] (pop_trailing n ls) = hd [] ls /\ (ls <> [] -> pop_trailing n ls <> []).
Proof.
  induction n as [|n IH]; intros ls; simpl; [easy|].
  destruct (Nat.ltb 1 (length ls) && is_empty (last ls [])) eqn:C; [|easy].
  apply andb_true_iff in C as [C1 _]. apply Nat.ltb_lt in C1.
  destruct ls as [|a [|b ls]]; simpl in C1; try lia.
  destruct (IH (removelast (a :: b :: ls))) as [H1 H2].
  split; [exact H1 | intros _; apply H2; discriminate].
Qed.

Lemma pop_trailing_last : forall n ls,
  length ls <= n ->
  length (pop_trailing n ls) <= 1 \/ last (pop_trailing n ls) [] <> [].
Proof.
  induction n as [|n IH]; intros ls L; simpl.
  - left. lia.
  - destruct (Nat.ltb 1 (length ls)) eqn:C1; cbn [andb].
    + destruct (is_empty (last ls [])) eqn:C2.
      * apply IH. rewrite removelast_firstn_len, length_firstn. lia.
      * right. now apply is_empty_false.
    + left. apply Nat.ltb_ge in C1. exact C1.
Qed.

Lemma pop_trailing_fixed (n : nat) (ls : list str) :
  ls = [] \/ last ls [] <> [] -> pop_trailing n ls = ls.
Proof.
  intros H. destruct n as [|n]; [reflexivity|]. simpl.
  destruct H as [->|H]; [reflexivity|].
  apply is_empty_false in H. now rewrite H, andb_false_r.
Qed.

Lemma pop_trailing_snoc (n : nat) (ls : list str) :
  ls <> [] -> last ls [] <> [] -> pop_trailing (S n) (ls ++ [[]]) = ls.
Proof.
  intros N H. simpl. rewrite last_last, length_app, removelast_last. simpl.
  replace (Nat.ltb 1 (length ls + 1)) with true.
  - simpl. apply pop_trailing_fixed. now right.
  - symmetry. apply Nat.ltb_lt. destruct ls; [congruence | simpl; lia].
Qed.

Lemma cleaned_stage1_In (lines : list str) (l : str) :
  In l (cleaned_stage1 lines) -> l = [] \/ (strip l <> [] /\ In l lines).
Proof.
  unfold cleaned_stage1. intros H. apply in_map_iff in H as [x [E I]].
  destruct (strip x) eqn:S; cbn [is_empty negb] in E; [now left|].
  subst l. right. split; [congruence | exact I].
Qed.


Lemma cleaned_stage1_fixed (lines : list str) :
  (forall l, In l lines -> l = [] \/ strip l <> []) -> cleaned_stage1 lines = lines.
Proof.
  unfold cleaned_stage1. induction lines as [|l ls IH]; intros H; [reflexivity|].
  simpl. rewrite IH by (intros x Hx; apply H; now right). f_equal.
  destruct (H l (or_introl eq_refl)) as [->|N]; [reflexivity|].
  apply is_empty_false in N. now rewrite N.
Qed.


Lemma join_nl_hd (ls : list str) : hd [] ls <> [] -> join_nl ls <> [].
Proof.
  destruct ls as [|l ls]; simpl; [congruence|]. intros H.
  destruct ls; [exact H|]. intros E. apply app_eq_nil in E as [E _]. contradiction.
Qed.

(** The clean-up produces a canonical list whose non-empty lines are lines it
    was given. *)
Lemma blank_collapser_canonical (lines : list str) :
  canonical (blank_collapser lines).
Proof.
  unfold blank_collapser.
  set (s2 := pop_leading (collapse (cleaned_stage1 lines))).
  destruct (pop_leading_split (collapse (cleaned_stage1 lines))) as [pre [E1 _]].
  fold s2 in E1.
  destruct (pop_trailing_split (length s2) s2) as [suf [E2 _]].
  assert (D : no_double (collapse (cleaned_stage1 lines)) = true)
    by now apply fold_collapse_no_double.
  split.
  - rewrite E1 in D. apply no_double_app_r in D. rewrite E2 in D.
    now apply no_double_app_l in D.
  - destruct (pop_leading_head (collapse (cleaned_stage1 lines))) as [N|N];
      fold s2 in N.
    + left. rewrite N. reflexivity.
    + right. destruct (pop_trailing_head (length s2) s2) as [H1 H2].
      split; [now rewrite H1|].
      destruct (pop_trailing_last (length s2) s2 (le_n _)) as [L|L]; [|exact L].
      assert (N2 : pop_trailing (length s2) s2 <> [])
        by (apply H2; intros Z; rewrite Z in N; now apply N).
      rewrite <- H1 in N.
      destruct (pop_trailing (length s2) s2) as [|x [|y t]]; simpl in *;
        [congruence | exact N | lia].
  - intros l I.
    assert (I2 : In l s2) by (rewrite E2; apply in_or_app; now left).
    assert (I3 : In l (collapse (cleaned_stage1 lines)))
      by (rewrite E1; apply in_or_app; now right).
    apply fold_collapse_In in I3 as [[]|I3].
    apply cleaned_stage1_In in I3 as [->|[N _]]; [now left | now right].
Qed.

Lemma blank_collapser_In (lines : list str) (l : str) :
  In l (blank_collapser lines) -> l <> [] -> In l lines.
Proof.
  unfold blank_collapser.
  set (s2 := pop_leading (collapse (cleaned_stage1 lines))).
  destruct (pop_leading_split (collapse (cleaned_stage1 lines))) as [pre [E1 _]].
  fold s2 in E1.
  destruct (pop_trailing_split (length s2) s2) as [suf [E2 _]].
  intros I N.
  assert (I2 : In l s2) by (rewrite E2; apply in_or_app; now left).
  assert (I3 : In l (collapse (cleaned_stage1 lines)))
    by (rewrite E1; apply in_or_app; now right).
  apply fold_collapse_In in I3 as [[]|I3].
  apply cleaned_stage1_In in I3 as [->|[_ I3]]; [congruence | exact I3].
Qed.

(** A canonical list goes through the clean-up unchanged, also with one
    empty line appended. *)
Lemma blank_collapser_fixed (ls : list str) :
  canonical ls -> blank_collapser ls = ls.
Proof.
  intros [D E L]. unfold blank_collapser.
  rewrite (cleaned_stage1_fixed ls L).
  unfold collapse. rewrite (fold_collapse_fixed ls []) by exact D. simpl.
  rewrite pop_leading_fixed by (destruct E as [->|[E _]]; [now left | now right]).
  apply pop_trailing_fixed. destruct E as [->|[_ E]]; [now left | now right].
Qed.

Lemma blank_collapser_snoc (ls : list str) :
  canonical ls -> ls <> [] -> blank_collapser (ls ++ [[]]) = ls.
Proof.
  intros [D E L] N. destruct E as [->|[E1 E2]]; [congruence|].
  unfold blank_collapser.
  rewrite (cleaned_stage1_fixed (ls ++ [[]]))
    by (intros l I; apply in_app_or in I as [I|[<-|[]]]; [now apply L | now left]).
  unfold collapse. rewrite (fold_collapse_fixed (ls ++ [[]]) []).
  - simpl. rewrite pop_leading_fixed
      by (right; destruct ls; [congruence | exact E1]).
    rewrite length_app, Nat.add_1_r. now apply pop_trailing_snoc.
  - simpl. rewrite no_double_snoc, D. destruct ls; [congruence|].
    apply is_empty_false in E2. now rewrite E2.
Qed.



(** ** Remove-all mode *)

Lemma map_fixed (f : str -> str) (ls : list str) :
  (forall l, In l ls -> f l = l) -> map f ls = ls.
Proof.
  induction ls as [|l ls IH]; intros H; [reflexivity|].
  simpl. rewrite (H l) by now left. f_equal. apply IH. intros x Hx. apply H. now right.
Qed.

Section RemoveAll.
Variable mk : char -> bool.
Variable d : lang_def.
Hypothesis wf : well_formed mk d.

Lemma final_lines_canonical (content : str) :
  canonical (final_lines d true content).
Proof. apply blank_collapser_canonical. Qed.

Lemma final_lines_from_result (content : str) (l : str) :
  In l (final_lines d true content) -> l <> [] ->
  exists l0, l = process_line d true l0.
Proof.
  intros I N. apply blank_collapser_In in I; [|exact N].
  unfold result_lines in I. apply in_map_iff in I as [l0 [E _]]. now exists l0.
Qed.

Lemma final_lines_no_nl (content : str) :
  Forall no_nl (final_lines d true content).
Proof.
  apply Forall_forall. intros l I. destruct l as [|c l]; [apply no_nl_nil|].
  apply blank_collapser_In in I; [|discriminate].
  assert (F := result_lines_no_nl mk d wf true content).
  rewrite Forall_forall in F. now apply F.
Qed.

Lemma final_lines_processed (content : str) (l : str) :
  In l (final_lines d true content) -> process_line d true l = l.
Proof.
  intros I. destruct l as [|c l]; [apply (process_line_nil mk d wf)|].
  destruct (final_lines_from_result content (c :: l) I) as [l0 E]; [discriminate|].
  rewrite E. apply (process_line_idem mk d wf).
Qed.

(** The output of remove-all mode: the cleaned-up lines joined, then the
    final newline of the original. *)
Lemma remove_all_output (content : str) :
  _remove_comments_universal content d true =
  join_nl (final_lines d true content)
  ++ (if endswith_nl content then [nl] else []).
Proof.
  unfold _remove_comments_universal.
  destruct (final_lines_canonical content) as [_ [E|[E1 E2]] _].
  - rewrite E. apply newline_fidelity_nil.
  - apply newline_fidelity_join; [now apply join_nl_hd|].
    rewrite endswith_nl_join by apply final_lines_no_nl.
    apply is_empty_false in E2. now rewrite E2, andb_false_r.
Qed.

(** The pieces of the output between newlines. *)
Lemma remove_all_split (content : str) :
  split_nl (_remove_comments_universal content d true) =
  match final_lines d true content with
  | [] => [[]]
  | _ :: _ => final_lines d true content
  end ++ (if endswith_nl content then [[]] else []).
Proof.
  rewrite remove_all_output.
  assert (F := final_lines_no_nl content).
  destruct (final_lines d true content) as [|l ls] eqn:E.
  - now destruct (endswith_nl content).
  - destruct (endswith_nl content).
    + change [nl] with (nl :: []).
      rewrite <- join_nl_snoc by discriminate.
      apply split_join; [now destruct ls|].
      apply Forall_app. split; [exact F|]. constructor; [apply no_nl_nil | constructor].
    + rewrite !app_nil_r. apply split_join; [discriminate | exact F].
Qed.

(** The lines of the output, as lines of a file. *)
Lemma remove_all_file_lines (content : str) :
  file_lines (_remove_comments_universal content d true) =
  match final_lines d true content with
  | [] => if endswith_nl content then [[]] else []
  | _ :: _ => final_lines d true content
  end.
Proof.
  unfold file_lines. rewrite remove_all_split.
  destruct (final_lines_canonical content) as [_ [E|[E1 E2]] _].
  - rewrite E. now destruct (endswith_nl content).
  - destruct (final_lines d true content) as [|l ls] eqn:E; [now simpl in E1|].
    destruct (endswith_nl content).
    + now rewrite last_last, removelast_last.
    + rewrite app_nil_r. apply is_empty_false in E2. now rewrite E2.
Qed.

(** Running remove-all mode on its own output, when the block pass finds
    nothing more to remove there, gives that output again. *)
Lemma remove_all_idem (content : str) :
  block_pass d true (_remove_comments_universal content d true)
  = _remove_comments_universal content d true ->
  _remove_comments_universal (_remove_comments_universal content d true) d true
  = _remove_comments_universal content d true.
Proof.
  intros B.
  assert (FL : final_lines d true (_remove_comments_universal content d true)
               = final_lines d true content).
  { unfold final_lines at 1. unfold result_lines. rewrite B, remove_all_split.
    assert (C := final_lines_canonical content).
    assert (P := final_lines_processed content).
    destruct (final_lines d true content) as [|l ls] eqn:E.
    - destruct (endswith_nl content); simpl;
        rewrite !(process_line_nil mk d wf); reflexivity.
    - cbv beta iota. rewrite map_app.
      assert (M : map (process_line d true) (l :: ls) = l :: ls)
        by (apply map_fixed; exact P).
      unfold str in *. rewrite M. clear M.
      destruct (endswith_nl content); simpl map.
      + rewrite (process_line_nil mk d wf).
        apply blank_collapser_snoc; [exact C | discriminate].
      + rewrite app_nil_r. now apply blank_collapser_fixed. }
  rewrite (remove_all_output (_remove_comments_universal content d true)), FL.
  unfold _remove_comments_universal at 1. rewrite newline_fidelity_endswith.
  symmetry. apply remove_all_output.
Qed.
End RemoveAll.

(** Inline-only mode on its own output. *)
Lemma inline_only_idem (mk : char -> bool) (d : lang_def) (content : str) :
  well_formed mk d ->
  _remove_comments_universal (_remove_comments_universal content d false) d false
  = _remove_comments_universal content d false.
Proof.
  intros W. rewrite (inline_only_output mk d W (_remove_comments_universal content d false)).
  rewrite (inline_only_split mk d W), map_map.
  rewrite (inline_only_output mk d W content). f_equal.
  apply map_ext. intros l. apply (strip_inline_idem mk d W).
Qed.

(** ** The wrapper *)

Lemma LANGUAGE_MAP_definitions (key : str) (d : lang_def) :
  dict_get LANGUAGE_MAP key = Some d -> In d COMMENT_DEFINITIONS.
Proof.
  intros H. apply dict_get_In in H as [k H]. unfold LANGUAGE_MAP in H.
  repeat (destruct H as [H|H]; [injection H as _ <-; simpl; tauto|]).
  destruct H.
Qed.

Lemma COMMENT_DEFINITIONS_wf (d : lang_def) :
  In d COMMENT_DEFINITIONS -> exists mk, well_formed mk d.
Proof.
  intros H. unfold COMMENT_DEFINITIONS in H.
  repeat (destruct H as [H|H];
          [subst d;
           eauto using python_like_wf, c_like_wf, c_like_line_only_wf,
                       xml_like_wf, css_like_wf, php_like_wf|]).
  destruct H.
Qed.

(** The two ways through [process_code_content]. *)
Lemma process_code_content_cases (lower : str -> str) (content ext : str) (ra : bool) :
  (dict_get LANGUAGE_MAP (lower ext) = None /\
   process_code_content lower content ext ra = content) \/
  (exists d mk, dict_get LANGUAGE_MAP (lower ext) = Some d /\ well_formed mk d /\
                process_code_content lower content ext ra =
                _remove_comments_universal content d ra).
Proof.
  unfold process_code_content.
  destruct (dict_get LANGUAGE_MAP (lower ext)) as [d|] eqn:E; [right | now left].
  destruct (LANGUAGE_MAP_wf _ _ E) as [mk W]. now exists d, mk.
Qed.

Lemma Forall2_prefix_map (f : str -> str) (ls : list str) :
  (forall l, prefix (f l) l) -> Forall2 prefix (map f ls) ls.
Proof. intros H. induction ls; simpl; constructor; auto. Qed.

Lemma file_lines_length_same (a b : str) :
  length (split_nl a) = length (split_nl b) ->
  is_empty (last (split_nl a) []) = is_empty (last (split_nl b) []) ->
  length (file_lines a) = length (file_lines b).
Proof.
  intros L E. unfold file_lines. rewrite E.
  destruct (is_empty (last (split_nl b) [])); [|exact L].
  assert (R : forall l : list str, length (removelast l) = pred (length l)).
  { intros l. rewrite removelast_firstn_len, length_firstn. lia. }
  now rewrite !R, L.
Qed.

(** ** Runs of the model *)

Example run_py_inline_only :
  process_code_content lower_ascii (py "x = 1  # note\n") (py ".py") false
  = py "x = 1\n".
Proof. vm_compute. reflexivity. Qed.

Example run_py_comment_line_inline_only :
  process_code_content lower_ascii (py "# only a comment\n") (py ".py") false
  = py "# only a comment\n".
Proof. vm_compute. reflexivity. Qed.

Example run_py_comment_line_remove_all :
  process_code_content lower_ascii (py "# only a comment\n") (py ".py") true
  = py "\n".
Proof. vm_compute. reflexivity. Qed.

Example run_py_blank_run_remove_all :
  process_code_content lower_ascii (py "x = 1\n\n\n\ny = 2\n") (py ".py") true
  = py "x = 1\n\ny = 2\n".
Proof. vm_compute. reflexivity. Qed.

Example run_go_inline_only :
  process_code_content lower_ascii (py "x := 1 // note\n") (py ".GO") false
  = py "x := 1\n".
Proof. vm_compute. reflexivity. Qed.

Example run_php_two_markers_remove_all :
  process_code_content lower_ascii
    (py "<?php\n$a = 1; # one\n  // two\n$b = 2; /* three */\n") (py ".php") true
  = py "<?php\n$a = 1;\n\n$b = 2; \n".
Proof. vm_compute. reflexivity. Qed.

(** * Properties of the specification *)



(** C8.  For [.c] in remove-all mode, the content
    ["int x = 1; /* hi\nthere */\nint y;\n"] loses its two-line block
    comment in the block pass over the whole buffer, which gives
    ["int x = 1; \nint y;\n"]; the lines handed to the join are the two code
    lines (the first with its trailing space, no empty line in between), and
    the final output is that same text. *)
Theorem C8_block_comment_scenario (lower : str -> str) :
  lower (py ".c") = py ".c" ->
  dict_get LANGUAGE_MAP (py ".c") = Some c_like /\
  block_pass c_like true (py "int x = 1; /* hi\nthere */\nint y;\n")
  = py "int x = 1; \nint y;\n" /\
  final_lines c_like true (py "int x = 1; /* hi\nthere */\nint y;\n")
  = [py "int x = 1; "; py "int y;"] /\
  process_code_content lower (py "int x = 1; /* hi\nthere */\nint y;\n") (py ".c") true
  = py "int x = 1; \nint y;\n".
Proof.
  intros H. unfold process_code_content. rewrite H.
  split; [reflexivity|]. split; [vm_compute; reflexivity|].
  split; vm_compute; reflexivity.
Qed.

Lemma C8_witness :
  process_code_content lower_ascii (py "int x = 1; /* hi\nthere */\nint y;\n") (py ".c") true
  = py "int x = 1; \nint y;\n".
Proof.
  apply (C8_block_comment_scenario lower_ascii). reflexivity.
Defined.

(** C7.  For every language definition, both modes and every line: a pattern
    application that changes the line makes it strictly shorter; so does a
    pass that changes it; the [while] loop exits within [S (length line)]
    iterations (and with any larger bound gives the same result), on a state
    that a further pass leaves unchanged; and it exits right after a pass
    that changed nothing. *)
Theorem C7_inline_loop_terminates (d : lang_def) (remove_all : bool) (line : str) :
  In d COMMENT_DEFINITIONS ->
  (forall p, In p (inline d) ->
     apply_inline remove_all line p = line \/
     length (apply_inline remove_all line p) < length line) /\
  (inline_pass d remove_all line = line \/
   length (inline_pass d remove_all line) < length line) /\
  (exists r,
     (forall fuel, length line < fuel ->
                   inline_while d remove_all fuel [] line = Some r) /\
     inline_pass d remove_all r = r) /\
  (forall fuel previous,
     inline_pass d remove_all line = line ->
     inline_while d remove_all (S fuel) previous line = Some line).
Proof.
  intros H. destruct (COMMENT_DEFINITIONS_wf d H) as [mk W].
  repeat split.
  - intros p Hp. assert (F := wf_inline _ _ W). rewrite Forall_forall in F.
    destruct (apply_inline_facts mk remove_all p line (F p Hp)) as [E|[L _]];
      [now left | now right].
  - destruct (inline_pass_facts mk d W remove_all line) as [E|[L _]];
      [now left | now right].
  - exists (strip_inline d remove_all line).
    destruct (strip_inline_facts mk d W remove_all line) as [T [_ [_ F]]].
    split; [|exact F]. intros fuel L.
    apply (inline_while_mono d remove_all _ (S (length line))); [lia | exact T].
  - intros fuel previous E. simpl.
    destruct (str_eqb previous line); [reflexivity|].
    rewrite E. apply inline_while_same.
Qed.

Lemma C7_witness :
  exists r,
    (forall fuel, length (py "x = 1  # note") < fuel ->
                  inline_while python_like true fuel [] (py "x = 1  # note") = Some r) /\
    inline_pass python_like true r = r.
Proof.
  apply (C7_inline_loop_terminates python_like true (py "x = 1  # note")).
  simpl. left. reflexivity.
Defined.

(** C2.  Whatever the content, the extension and the mode, the output ends
    with a newline exactly when the input does; the empty content is mapped
    to the empty content and the content made of one newline to itself. *)
Theorem C2_newline_fidelity (lower : str -> str) (content ext : str) (flag : bool) :
  endswith_nl (process_code_content lower content ext flag) = endswith_nl content /\
  process_code_content lower [] ext flag = [] /\
  process_code_content lower [nl] ext flag = [nl].
Proof.
  unfold process_code_content.
  destruct (dict_get LANGUAGE_MAP (lower ext)) as [d|] eqn:E; [|now repeat split].
  split; [apply newline_fidelity_endswith|].
  apply LANGUAGE_MAP_definitions in E. unfold COMMENT_DEFINITIONS in E.
  repeat (destruct E as [E|E]; [subst d; destruct flag; split; reflexivity|]).
  destruct E.
Qed.

(** C9.  In inline-only mode the output has as many lines as the input,
    counted as pieces between newlines or as lines of a file, and it ends
    with a newline exactly when the input does. *)
Theorem C9_inline_only_preserves_line_count
        (lower : str -> str) (content ext : str) :
  length (split_nl (process_code_content lower content ext false))
  = length (split_nl content) /\
  length (file_lines (process_code_content lower content ext false))
  = length (file_lines content) /\
  endswith_nl (process_code_content lower content ext false) = endswith_nl content.
Proof.
  destruct (process_code_content_cases lower content ext false)
    as [[_ ->]|[d [mk [_ [W ->]]]]]; [now repeat split|].
  assert (L : length (split_nl (_remove_comments_universal content d false))
              = length (split_nl content)).
  { rewrite (inline_only_split mk d W). apply length_map. }
  repeat split.
  - exact L.
  - apply file_lines_length_same; [exact L|].
    rewrite (inline_only_split mk d W), last_map_nil.
    + apply (strip_inline_empty_iff mk d W).
    + change (strip_inline d false []) with (process_line d false []).
      apply (process_line_nil mk d W).
  - apply newline_fidelity_endswith.
Qed.

(** C10.  In inline-only mode every output line is an initial segment of the
    input line at the same position. *)
Theorem C10_inline_only_lines_are_prefixes
        (lower : str -> str) (content ext : str) :
  Forall2 prefix
          (split_nl (process_code_content lower content ext false))
          (split_nl content).
Proof.
  destruct (process_code_content_cases lower content ext false)
    as [[_ ->]|[d [mk [_ [W ->]]]]].
  - induction (split_nl content); constructor; [apply prefix_refl | assumption].
  - rewrite (inline_only_split mk d W). apply Forall2_prefix_map.
    intros l. apply (strip_inline_facts mk d W).
Qed.

(** C3.  In inline-only mode, a line of the input that the family's
    full-line patterns classify as a comment (its stripped text is matched in
    full by one of them) is found unchanged at the same position of the
    output; on such a line, whatever an inline pattern captures as code part
    is empty once stripped. *)
Theorem C3_inline_only_keeps_comment_lines
        (lower : str -> str) (content ext : str) (d : lang_def)
        (i : nat) (line : str) :
  dict_get LANGUAGE_MAP (lower ext) = Some d ->
  nth_error (split_nl content) i = Some line ->
  is_full_line_comment_type d line = true ->
  nth_error (split_nl (process_code_content lower content ext false)) i = Some line /\
  forall p m, In p (inline d) -> re_match2 p line = Some m ->
              strip (group1 m line) = [].
Proof.
  intros E Hi Hf. destruct (LANGUAGE_MAP_wf _ _ E) as [mk W].
  split.
  - unfold process_code_content. rewrite E.
    rewrite (inline_only_split mk d W), nth_error_map, Hi. simpl.
    now rewrite (inline_only_full_line mk d W line Hf).
  - intros p m Hp Hm. exact (full_line_code_part mk d W line p m Hf Hp Hm).
Qed.

Lemma C3_witness :
  nth_error (split_nl (process_code_content lower_ascii
                         (py "x = 1  # note\n  # only a comment\n") (py ".py") false)) 1
  = Some (py "  # only a comment").
Proof.
  apply (C3_inline_only_keeps_comment_lines lower_ascii
           (py "x = 1  # note\n  # only a comment\n") (py ".py") python_like 1
           (py "  # only a comment")); reflexivity.
Defined.

(** C4.  For a mapped extension, the lines of the remove-all output (as lines
    of a file) are either exactly one empty line, or hold no two consecutive
    empty lines, no empty first line and no empty last line. *)
Theorem C4_remove_all_blank_run_bound
        (lower : str -> str) (content ext : str) (d : lang_def) :
  dict_get LANGUAGE_MAP (lower ext) = Some d ->
  file_lines (process_code_content lower content ext true) = [[]] \/
  ((forall a b, file_lines (process_code_content lower content ext true)
                <> a ++ [] :: [] :: b) /\
   (forall t, file_lines (process_code_content lower content ext true) <> [] :: t) /\
   (forall t, file_lines (process_code_content lower content ext true) <> t ++ [[]])).
Proof.
  intros E. destruct (LANGUAGE_MAP_wf _ _ E) as [mk W].
  unfold process_code_content. rewrite E.
  rewrite (remove_all_file_lines mk d W).
  destruct (final_lines_canonical d content) as [D Ends _].
  destruct (final_lines d true content) as [|l ls].
  - destruct (endswith_nl content); [now left | right].
    repeat split; intros; [destruct a | | destruct t]; discriminate.
  - right. destruct Ends as [Z|[E1 E2]]; [discriminate|]. repeat split.
    + intros a b Eq. rewrite Eq in D. apply no_double_app_r in D. discriminate.
    + intros t Eq. rewrite Eq in E1. now apply E1.
    + intros t Eq. rewrite Eq, last_last in E2. now apply E2.
Qed.

Lemma C4_witness :
  file_lines (process_code_content lower_ascii
                (py "\n# a\n\nx = 1\n\n\n# b\ny = 2  # c\n\n") (py ".py") true) = [[]] \/
  ((forall a b, file_lines (process_code_content lower_ascii
                  (py "\n# a\n\nx = 1\n\n\n# b\ny = 2  # c\n\n") (py ".py") true)
                <> a ++ [] :: [] :: b) /\
   (forall t, file_lines (process_code_content lower_ascii
                  (py "\n# a\n\nx = 1\n\n\n# b\ny = 2  # c\n\n") (py ".py") true)
              <> [] :: t) /\
   (forall t, file_lines (process_code_content lower_ascii
                  (py "\n# a\n\nx = 1\n\n\n# b\ny = 2  # c\n\n") (py ".py") true)
              <> t ++ [[]])).
Proof.
  apply (C4_remove_all_blank_run_bound lower_ascii
           (py "\n# a\n\nx = 1\n\n\n# b\ny = 2  # c\n\n") (py ".py") python_like).
  reflexivity.
Defined.



(** C1, as the code has it.  Applying the transform to its own output gives
    that output again in inline-only mode, and in remove-all mode whenever
    the block pass of the looked-up definition finds nothing to remove in
    that output (always so for an unmapped extension and for a definition
    without block pattern). *)
Theorem C1_idempotence_without_new_blocks
        (lower : str -> str) (content ext : str) (flag : bool) :
  (flag = false \/
   forall d, dict_get LANGUAGE_MAP (lower ext) = Some d ->
             block_pass d true (process_code_content lower content ext true)
             = process_code_content lower content ext true) ->
  process_code_content lower (process_code_content lower content ext flag) ext flag
  = process_code_content lower content ext flag.
Proof.
  intros H. unfold process_code_content in *.
  destruct (dict_get LANGUAGE_MAP (lower ext)) as [d|] eqn:E; [|reflexivity].
  destruct (LANGUAGE_MAP_wf _ _ E) as [mk W].
  destruct flag.
  - destruct H as [H|H]; [discriminate|].
    apply (remove_all_idem mk d W). now apply H.
  - now apply (inline_only_idem mk d).
Qed.

Lemma C1_witness :
  process_code_content lower_ascii
    (process_code_content lower_ascii
       (py "int x = 1; /* hi\nthere */\n\n\n// gone\nint y; // why\n") (py ".c") true)
    (py ".c") true
  = process_code_content lower_ascii
      (py "int x = 1; /* hi\nthere */\n\n\n// gone\nint y; // why\n") (py ".c") true.
Proof.
  apply (C1_idempotence_without_new_blocks lower_ascii
           (py "int x = 1; /* hi\nthere */\n\n\n// gone\nint y; // why\n") (py ".c") true).
  right. intros d H. vm_compute in H. injection H as <-. vm_compute. reflexivity.
Defined.

(** Idempotence holds without condition for the definitions that have no
    block pattern. *)
Corollary idempotence_without_block_pattern
          (lower : str -> str) (content ext : str) (flag : bool) (d : lang_def) :
  dict_get LANGUAGE_MAP (lower ext) = Some d -> block_dotall d = None ->
  process_code_content lower (process_code_content lower content ext flag) ext flag
  = process_code_content lower content ext flag.
Proof.
  intros E B. destruct flag.
  - unfold process_code_content. rewrite E.
    destruct (LANGUAGE_MAP_wf _ _ E) as [mk W].
    apply (remove_all_idem mk d W). unfold block_pass. now rewrite B.
  - unfold process_code_content. rewrite E.
    destruct (LANGUAGE_MAP_wf _ _ E) as [mk W]. now apply (inline_only_idem mk d).
Qed.

(** C1, as stated, fails: for [.c] in remove-all mode the block pass removes
    ["/* x */"] and thereby joins ["/"] and ["* y"] into the opening of a
    block comment that the second run removes. *)
Lemma C1_counterexample :
  process_code_content lower_ascii (py "a = 1 //* x */* y\nb = 2 */\n") (py ".c") true
  = py "a = 1 /* y\nb = 2 */\n" /\
  process_code_content lower_ascii (py "a = 1 /* y\nb = 2 */\n") (py ".c") true
  = py "a = 1 \n" /\
  process_code_content lower_ascii
    (process_code_content lower_ascii (py "a = 1 //* x */* y\nb = 2 */\n") (py ".c") true)
    (py ".c") true
  <> process_code_content lower_ascii (py "a = 1 //* x */* y\nb = 2 */\n") (py ".c") true.
Proof.
  split; [vm_compute; reflexivity|]. split; [vm_compute; reflexivity|].
  vm_compute. discriminate.
Qed.

(** * Further properties of the code *)

(** ** The opening characters of a definition *)

Lemma well_formed_ext (mk mk' : char -> bool) (d : lang_def) :
  (forall c, mk c = mk' c) -> well_formed mk d -> well_formed mk' d.
Proof.
  intros E [Hs Hi Hf]. split.
  - intros c H. apply Hs. now rewrite E.
  - apply Forall_forall. intros p Hp. rewrite Forall_forall in Hi.
    destruct (Hi p Hp) as [[cs [E1 Hcs]] [q [r' [E2 [c [Hc Mc]]]]]]. split.
    + exists cs. split; [exact E1|]. intros x Hx. apply Hcs. now rewrite E.
    + exists q, r'. split; [exact E2|]. exists c. split; [exact Hc|]. now rewrite <- E.
  - apply Forall_forall. intros p Hp. rewrite Forall_forall in Hf.
    destruct (Hf p Hp) as [c [r' [E1 Mc]]]. exists c, r'.
    split; [exact E1 | now rewrite <- E].
Qed.

(** Every definition of the table is of the common form with respect to its
    own opening characters. *)
Lemma openers_wf (d : lang_def) :
  In d COMMENT_DEFINITIONS -> well_formed (openers d) d.
Proof.
  intros H. unfold COMMENT_DEFINITIONS in H.
  destruct H as [<-|[<-|[<-|[<-|[<-|[<-|[]]]]]]].
  - apply (well_formed_ext (one_of (py "#"))); [|apply python_like_wf].
    intros c. vm_compute. now destruct (N.eqb c 35).
  - apply (well_formed_ext (one_of (py "/"))); [|apply c_like_wf].
    intros c. unfold openers, one_of. simpl. now destruct (N.eqb c 47).
  - apply (well_formed_ext (one_of (py "/"))); [|apply c_like_line_only_wf].
    intros c. unfold openers, one_of. simpl. now destruct (N.eqb c 47).
  - apply (well_formed_ext (one_of (py "<"))); [|apply xml_like_wf].
    intros c. unfold openers, one_of. simpl. now destruct (N.eqb c 60).
  - apply (well_formed_ext (one_of (py "/"))); [|apply css_like_wf].
    intros c. unfold openers, one_of. simpl. now destruct (N.eqb c 47).
  - apply (well_formed_ext (one_of (py "/#"))); [|apply php_like_wf].
    intros c. unfold openers, one_of. simpl.
    now destruct (N.eqb c 47), (N.eqb c 35).
Qed.

Lemma openers_inline_cut (d : lang_def) :
  In d COMMENT_DEFINITIONS -> Forall (inline_cut (openers d)) (inline d).
Proof.
  intros H. unfold COMMENT_DEFINITIONS in H.
  destruct H as [<-|[<-|[<-|[<-|[<-|[<-|[]]]]]]];
    cbv [python_like c_like c_like_line_only xml_like css_like php_like inline];
    repeat (constructor; [split; [eexists; split; [reflexivity|];
                                  let c := fresh "c" in let H := fresh "H" in
                                  intros c H; unfold openers in H; simpl in H;
                                  repeat (apply orb_true_iff in H as [H|H];
                                          [apply N.eqb_eq in H; subst c;
                                           vm_compute; tauto|]);
                                  discriminate
                                 | eexists; eexists; split; [reflexivity|reflexivity]]|]);
    constructor.
Qed.

(** ** The inline loop, exactly *)

Lemma rstrip_by_app_all (p : char -> bool) (a t : str) :
  forallb p t = true -> rstrip_by p (a ++ t) = rstrip_by p a.
Proof.
  intros H. induction a as [|c a IH]; simpl.
  - now apply rstrip_by_nil.
  - now rewrite IH.
Qed.

Lemma before_opener_unmarked (mk : char -> bool) (s : str) :
  unmarked mk (before_opener mk s).
Proof.
  induction s as [|x s IH]; simpl; [intros c []|].
  destruct (mk x) eqn:Mx; [intros c []|].
  intros c [<-|I]; [exact Mx | now apply IH].
Qed.

Lemma before_opener_app (mk : char -> bool) (a : str) (c : char) (t : str) :
  unmarked mk a -> mk c = true -> before_opener mk (a ++ c :: t) = a.
Proof.
  intros U Mc. induction a as [|x a IH]; simpl; [now rewrite Mc|].
  rewrite (U x) by now left. f_equal. apply IH. intros y Hy. apply U. now right.
Qed.

Lemma before_opener_all (mk : char -> bool) (s : str) :
  unmarked mk s -> before_opener mk s = s.
Proof.
  induction s as [|x s IH]; intros U; simpl; [reflexivity|].
  rewrite (U x) by now left. f_equal. apply IH. intros y Hy. apply U. now right.
Qed.

Lemma blank_isspace (x : char) : blank x = true -> isspace x = true.
Proof.
  intros H. apply one_of_In in H. vm_compute in H.
  destruct H as [<-|[<-|[]]]; reflexivity.
Qed.

Section OnePass.
Variable mk : char -> bool.
Variable d : lang_def.
Hypothesis wf : well_formed mk d.
Hypothesis cut : Forall (inline_cut mk) (inline d).

(** What an inline match cuts off starts at the blanks before the first
    opening character of the line. *)
Lemma inline_cut_match (p : regex2) (s : str) (m : nat * nat) :
  inline_cut mk p -> re_match2 p s = Some m ->
  rstrip (group1 m s) = rstrip (before_opener mk s).
Proof.
  intros [[cs [E1 Hcs]] [c [r' [E2 Mc]]]] H.
  destruct (re_match2_inv _ _ _ H) as [w1 [w2 [rest [Es [H1 [H2 G]]]]]].
  rewrite G. rewrite E1 in H1. rewrite E2 in H2. simpl in H1, H2.
  destruct H1 as [u [w' [-> [Hu ->]]]]. rewrite app_nil_r in *.
  destruct H2 as [x [v [w' [-> [Bx [Bv [w'' [-> _]]]]]]]].
  assert (S : forallb isspace (x :: v) = true).
  { apply forallb_forall. intros y [<-|Hy]; [now apply blank_isspace|].
    rewrite forallb_forall in Bv. now apply blank_isspace, Bv. }
  assert (U : unmarked mk (u ++ x :: v)).
  { intros y Hy. destruct (mk y) eqn:My; [|reflexivity]. exfalso.
    apply in_app_or in Hy as [Hy|Hy].
    - rewrite forallb_forall in Hu. specialize (Hu y Hy).
      apply none_of_In in Hu. now apply Hu, Hcs.
    - rewrite forallb_forall in S. specialize (S y Hy).
      rewrite (wf_space _ _ wf y My) in S. discriminate. }
  replace s with ((u ++ x :: v) ++ c :: (w'' ++ rest)).
  - rewrite (before_opener_app mk _ c _ U Mc). unfold rstrip.
    symmetry. now apply rstrip_by_app_all.
  - rewrite Es. rewrite <- !app_assoc. simpl. now rewrite <- app_assoc.
Qed.

Lemma apply_inline_cut (ra : bool) (p : regex2) (s : str) :
  inline_cut mk p ->
  apply_inline ra s p = s \/ apply_inline ra s p = rstrip (before_opener mk s).
Proof.
  intros Hp. unfold apply_inline.
  destruct (re_match2 p s) as [m|] eqn:E; [|now left].
  rewrite (inline_cut_match p s m Hp E).
  destruct ra; [now right|].
  destruct (negb (is_empty (strip (group1 m s)))); [now right | now left].
Qed.

Lemma rstrip_before_opener_unmarked (s : str) :
  unmarked mk (rstrip (before_opener mk s)).
Proof.
  apply (unmarked_prefix mk _ (before_opener mk s)).
  - apply rstrip_by_prefix.
  - apply before_opener_unmarked.
Qed.

Lemma inline_pass_cut (ra : bool) (s : str) :
  inline_pass d ra s = s \/ inline_pass d ra s = rstrip (before_opener mk s).
Proof.
  unfold inline_pass. assert (I := wf_inline _ _ wf). revert cut I.
  induction (inline d) as [|p ps IH]; intros C I; [now left|].
  inversion C as [|? ? Cp Cps]; inversion I as [|? ? Ip Ips]; subst. simpl.
  destruct (apply_inline_cut ra p s Cp) as [E|E]; rewrite E.
  - now apply IH.
  - right. apply fold_left_fixed. intros q Hq.
    rewrite Forall_forall in Ips.
    apply (apply_inline_unmarked mk ra q _ (Ips q Hq)).
    apply rstrip_before_opener_unmarked.
Qed.

Lemma inline_pass_idem (ra : bool) (s : str) :
  inline_pass d ra (inline_pass d ra s) = inline_pass d ra s.
Proof.
  destruct (inline_pass_facts mk d wf ra s) as [E|[_ [_ U]]].
  - now rewrite !E.
  - now apply (inline_pass_unmarked mk d wf).
Qed.

Lemma strip_inline_one_pass (ra : bool) (s : str) :
  strip_inline d ra s = inline_pass d ra s.
Proof.
  destruct (inline_pass_facts mk d wf ra s) as [E|[L _]].
  - rewrite E. now apply (strip_inline_fixed d).
  - unfold strip_inline. destruct s as [|c s]; [simpl in L; lia|].
    cbn [length inline_while]. 
    replace (str_eqb [] (c :: s)) with false by reflexivity.
    replace (str_eqb (c :: s) (inline_pass d ra (c :: s))) with false.
    + rewrite inline_pass_idem. now rewrite inline_while_same.
    + symmetry. apply str_eqb_neq. intros Eq. rewrite <- Eq in L. lia.
Qed.
End OnePass.

(** X1.  For every definition of the table and both modes, one pass over the
    inline patterns is all the [while] loop ever does: its result is the
    result of the first pass, and a second pass changes nothing. *)
Theorem X1_inline_loop_is_one_pass (d : lang_def) (remove_all : bool) (line : str) :
  In d COMMENT_DEFINITIONS ->
  strip_inline d remove_all line = inline_pass d remove_all line /\
  inline_pass d remove_all (inline_pass d remove_all line)
  = inline_pass d remove_all line.
Proof.
  intros H. split.
  - apply (strip_inline_one_pass (openers d) d (openers_wf d H)).
  - apply (inline_pass_idem (openers d) d (openers_wf d H)).
Qed.

Lemma X1_witness :
  strip_inline php_like true (py "$a = 1; # one // two /* three */")
  = inline_pass php_like true (py "$a = 1; # one // two /* three */") /\
  inline_pass php_like true
    (inline_pass php_like true (py "$a = 1; # one // two /* three */"))
  = inline_pass php_like true (py "$a = 1; # one // two /* three */").
Proof.
  apply (X1_inline_loop_is_one_pass php_like true
           (py "$a = 1; # one // two /* three */")).
  simpl. tauto.
Defined.

Lemma strip_inline_cut (d : lang_def) (In_d : In d COMMENT_DEFINITIONS)
      (remove_all : bool) (line : str) :
  strip_inline d remove_all line = line \/
  strip_inline d remove_all line = rstrip (before_opener (openers d) line).
Proof.
  rewrite (strip_inline_one_pass (openers d) d (openers_wf d In_d)).
  apply (inline_pass_cut (openers d) d (openers_wf d In_d) (openers_inline_cut d In_d)).
Qed.

(** X2.  For every definition of the table and both modes, the inline loop
    either leaves the line as it is or cuts it down to the text before the
    first comment-opening character of the line, without its trailing
    whitespace. *)
Theorem X2_inline_cut_is_before_first_opener
        (d : lang_def) (remove_all : bool) (line : str) :
  In d COMMENT_DEFINITIONS ->
  strip_inline d remove_all line = line \/
  strip_inline d remove_all line = rstrip (before_opener (openers d) line).
Proof.
  intros H.
  rewrite (strip_inline_one_pass (openers d) d (openers_wf d H)).
  apply (inline_pass_cut (openers d) d (openers_wf d H) (openers_inline_cut d H)).
Qed.

Lemma X2_witness :
  strip_inline c_like false (py "int y;  \t // why /* not */") = py "int y;  \t // why /* not */" \/
  strip_inline c_like false (py "int y;  \t // why /* not */")
  = rstrip (before_opener (openers c_like) (py "int y;  \t // why /* not */")).
Proof.
  apply (X2_inline_cut_is_before_first_opener c_like false
           (py "int y;  \t // why /* not */")).
  simpl. tauto.
Defined.

(** ** What is left in the output *)

Lemma In_join_nl (c : char) (l : str) (ls : list str) :
  In l ls -> In c l -> In c (join_nl ls).
Proof.
  induction ls as [|x ls IH]; intros Hl Hc; [destruct Hl|].
  destruct ls as [|y ls'].
  - destruct Hl as [->|[]]. exact Hc.
  - rewrite join_nl_cons by discriminate. apply in_or_app.
    destruct Hl as [->|Hl]; [now left|]. right. right. now apply IH.
Qed.

Lemma In_split_nl (c : char) (l s : str) :
  In l (split_nl s) -> In c l -> In c s.
Proof.
  intros Hl Hc. rewrite <- (join_split s). exact (In_join_nl c l _ Hl Hc).
Qed.

Section Leftovers.
Variable mk : char -> bool.
Variable d : lang_def.
Hypothesis wf : well_formed mk d.

Lemma fold_fixed_each (ra : bool) (ps : list regex2) (s : str) :
  Forall (inline_ok mk) ps ->
  fold_left (apply_inline ra) ps s = s ->
  forall p, In p ps -> apply_inline ra s p = s.
Proof.
  induction ps as [|q ps IH]; intros F H p Hp; [destruct Hp|].
  inversion F as [|? ? Fq Fps]; subst. simpl in H.
  destruct (apply_inline_facts mk ra q s Fq) as [E|[L _]].
  - rewrite E in H. destruct Hp as [->|Hp]; [exact E | now apply IH].
  - exfalso.
    destruct (fold_inline_facts mk ra ps (apply_inline ra s q) Fps) as [E'|[L' _]].
    + rewrite E' in H. rewrite H in L. lia.
    + rewrite H in L'. lia.
Qed.

Lemma inline_pass_fixed_each (ra : bool) (s : str) (p : regex2) :
  inline_pass d ra s = s -> In p (inline d) -> apply_inline ra s p = s.
Proof. intros H. apply fold_fixed_each; [apply wf | exact H]. Qed.

(** A line that a remove-all pass leaves alone matches no inline pattern. *)
Lemma remove_all_fixed_no_match (s : str) (p : regex2) :
  inline_pass d true s = s -> In p (inline d) -> re_match2 p s = None.
Proof.
  intros H Hp. assert (E := inline_pass_fixed_each true s p H Hp).
  unfold apply_inline in E. destruct (re_match2 p s) as [m|] eqn:M; [|reflexivity].
  exfalso. assert (F := wf_inline _ _ wf). rewrite Forall_forall in F.
  destruct (inline_match_facts mk p s m (F p Hp) M) as [_ [L _]].
  assert (Q := prefix_length _ _ (rstrip_by_prefix isspace (group1 m s))).
  unfold rstrip in E. rewrite E in Q. lia.
Qed.

(** A line that an inline-only pass leaves alone is matched by inline
    patterns only with a blank code part. *)
Lemma inline_only_fixed_blank_match (s : str) (p : regex2) (m : nat * nat) :
  inline_pass d false s = s -> In p (inline d) -> re_match2 p s = Some m ->
  strip (group1 m s) = [].
Proof.
  intros H Hp M. assert (E := inline_pass_fixed_each false s p H Hp).
  unfold apply_inline in E. rewrite M in E.
  destruct (strip (group1 m s)) as [|c t] eqn:S; [reflexivity|].
  exfalso. cbn [is_empty negb] in E.
  assert (F := wf_inline _ _ wf). rewrite Forall_forall in F.
  destruct (inline_match_facts mk p s m (F p Hp) M) as [_ [L _]].
  assert (Q := prefix_length _ _ (rstrip_by_prefix isspace (group1 m s))).
  unfold rstrip in E. rewrite E in Q. lia.
Qed.

Lemma remove_all_output_line (content l : str) :
  In l (split_nl (_remove_comments_universal content d true)) ->
  l = [] \/ In l (final_lines d true content).
Proof.
  rewrite (remove_all_split mk d wf). intros H.
  apply in_app_or in H as [H|H].
  - destruct (final_lines d true content) as [|x xs]; [|now right].
    destruct H as [<-|[]]. now left.
  - destruct (endswith_nl content); [|destruct H]. destruct H as [<-|[]]. now left.
Qed.

Lemma remove_all_line_clean (content l : str) :
  In l (split_nl (_remove_comments_universal content d true)) ->
  is_full_line_comment_type d l = false /\
  forall p, In p (inline d) -> re_match2 p l = None.
Proof.
  intros H.
  assert (P : process_line d true l = l).
  { destruct (remove_all_output_line content l H) as [->|I].
    - apply (process_line_nil mk d wf).
    - exact (final_lines_processed mk d wf content l I). }
  assert (N : is_full_line_comment_type d l = false).
  { destruct (is_full_line_comment_type d l) eqn:F; [|reflexivity].
    unfold process_line in P. rewrite F in P. simpl in P. subst l.
    rewrite (full_line_unmarked mk d wf [] (unmarked_nil mk)) in F. discriminate. }
  split; [exact N|]. intros p Hp.
  unfold process_line in P. rewrite N in P. simpl in P.
  apply remove_all_fixed_no_match; [|exact Hp].
  rewrite <- P at 1 2. apply (strip_inline_facts mk d wf).
Qed.

Lemma inline_only_line_clean (content l : str) (p : regex2) (m : nat * nat) :
  In l (split_nl (_remove_comments_universal content d false)) ->
  In p (inline d) -> re_match2 p l = Some m -> strip (group1 m l) = [].
Proof.
  rewrite (inline_only_split mk d wf). intros H Hp M.
  apply in_map_iff in H as [l0 [<- _]].
  apply (inline_only_fixed_blank_match _ p m); [|exact Hp | exact M].
  apply (strip_inline_facts mk d wf).
Qed.

Lemma inline_only_unmarked (content : str) :
  unmarked mk content -> _remove_comments_universal content d false = content.
Proof.
  intros U. rewrite (inline_only_output mk d wf).
  rewrite map_fixed; [apply join_split|].
  intros l Hl. apply (strip_inline_unmarked mk d wf).
  intros c Hc. apply U. exact (In_split_nl c l content Hl Hc).
Qed.
End Leftovers.

(** X3.  In inline-only mode, a content that holds none of the
    comment-opening characters of its definition comes back unchanged. *)
Theorem X3_inline_only_keeps_comment_free_content
        (lower : str -> str) (content ext : str) (d : lang_def) :
  dict_get LANGUAGE_MAP (lower ext) = Some d ->
  (forall c, In c content -> openers d c = false) ->
  process_code_content lower content ext false = content.
Proof.
  intros E U. unfold process_code_content. rewrite E.
  apply (inline_only_unmarked (openers d) d); [|exact U].
  apply openers_wf. exact (LANGUAGE_MAP_definitions _ _ E).
Qed.

Lemma X3_witness :
  process_code_content lower_ascii
    (py "def f(x):\n    return x * 2   \n\n\n\nprint(f(2))") (py ".py") false
  = py "def f(x):\n    return x * 2   \n\n\n\nprint(f(2))".
Proof.
  apply (X3_inline_only_keeps_comment_free_content lower_ascii
           (py "def f(x):\n    return x * 2   \n\n\n\nprint(f(2))") (py ".py")
           python_like); [reflexivity|].
  intros c H. vm_compute in H.
  repeat (destruct H as [H|H]; [subst c; reflexivity|]). destruct H.
Defined.

(** X4.  In remove-all mode, for a mapped extension, no line of the output
    is classified as a full-line comment and no inline pattern matches any
    line of the output. *)
Theorem X4_remove_all_leaves_no_line_comment
        (lower : str -> str) (content ext : str) (d : lang_def) (line : str) :
  dict_get LANGUAGE_MAP (lower ext) = Some d ->
  In line (split_nl (process_code_content lower content ext true)) ->
  is_full_line_comment_type d line = false /\
  forall p, In p (inline d) -> re_match2 p line = None.
Proof.
  intros E. unfold process_code_content. rewrite E.
  destruct (LANGUAGE_MAP_wf _ _ E) as [mk W].
  apply (remove_all_line_clean mk d W).
Qed.

Lemma X4_witness :
  is_full_line_comment_type c_like (py "int x = 1;") = false /\
  forall p, In p (inline c_like) -> re_match2 p (py "int x = 1;") = None.
Proof.
  apply (X4_remove_all_leaves_no_line_comment lower_ascii
           (py "int x = 1; // a\n// b\nint y; /* c */\n") (py ".c") c_like
           (py "int x = 1;")); [reflexivity|].
  vm_compute. left. reflexivity.
Defined.

(** X5.  In inline-only mode, for a mapped extension, an inline pattern that
    still matches a line of the output captures nothing but whitespace as
    code part: what is left are whole-line comments. *)
Theorem X5_inline_only_leaves_whole_line_comments_only
        (lower : str -> str) (content ext : str) (d : lang_def)
        (line : str) (p : regex2) (m : nat * nat) :
  dict_get LANGUAGE_MAP (lower ext) = Some d ->
  In line (split_nl (process_code_content lower content ext false)) ->
  In p (inline d) -> re_match2 p line = Some m ->
  strip (group1 m line) = [].
Proof.
  intros E. unfold process_code_content. rewrite E.
  destruct (LANGUAGE_MAP_wf _ _ E) as [mk W].
  apply (inline_only_line_clean mk d W).
Qed.

Lemma X5_witness : strip (group1 (1, 8) (py "  # note")) = [].
Proof.
  apply (X5_inline_only_leaves_whole_line_comments_only lower_ascii
           (py "x = 1  # one\n  # note\n") (py ".py") python_like
           (py "  # note") inline_hash (1, 8)).
  - reflexivity.
  - vm_compute. right. left. reflexivity.
  - simpl. left. reflexivity.
  - vm_compute. reflexivity.
Defined.

(** ** The blank-line clean-up keeps the other lines *)

Lemma filter_all_empty (ls : list str) :
  Forall (eq []) ls -> filter nonempty ls = [].
Proof. induction 1 as [|l ls <- _ IH]; [reflexivity | exact IH]. Qed.

Lemma filter_cleaned_stage1 (lines : list str) :
  filter nonempty (cleaned_stage1 lines) = filter nonblank lines.
Proof.
  unfold cleaned_stage1. induction lines as [|l ls IH]; [reflexivity|].
  simpl. unfold nonblank at 1. destruct (negb (is_empty (strip l))) eqn:N.
  - destruct l as [|c l]; [discriminate N|]. simpl. now rewrite IH.
  - simpl. exact IH.
Qed.

Lemma filter_collapse_step (acc : list str) (l : str) :
  filter nonempty (collapse_step acc l) = filter nonempty acc ++ filter nonempty [l].
Proof.
  unfold collapse_step. destruct l as [|c l]; cbn [is_empty negb].
  - simpl filter at 3. rewrite app_nil_r.
    assert (S : filter nonempty (acc ++ [[]]) = filter nonempty acc)
      by (rewrite filter_app; simpl; apply app_nil_r).
    destruct acc as [|a acc]; [reflexivity|].
    destruct (negb (is_empty (last (a :: acc) []))); [exact S | reflexivity].
  - now rewrite filter_app.
Qed.

Lemma filter_fold_collapse (ls : list str) : forall acc,
  filter nonempty (fold_left collapse_step ls acc)
  = filter nonempty acc ++ filter nonempty ls.
Proof.
  induction ls as [|l ls IH]; intros acc; simpl fold_left.
  - simpl. now rewrite app_nil_r.
  - rewrite IH, filter_collapse_step, <- app_assoc. f_equal.
    simpl. now destruct (nonempty l).
Qed.

Lemma filter_pop_leading (ls : list str) :
  filter nonempty (pop_leading ls) = filter nonempty ls.
Proof.
  destruct (pop_leading_split ls) as [pre [E F]].
  rewrite E at 2. now rewrite filter_app, (filter_all_empty pre F).
Qed.

Lemma filter_pop_trailing (n : nat) (ls : list str) :
  filter nonempty (pop_trailing n ls) = filter nonempty ls.
Proof.
  destruct (pop_trailing_split n ls) as [suf [E F]].
  rewrite E at 2. now rewrite filter_app, (filter_all_empty suf F), app_nil_r.
Qed.

Lemma filter_blank_collapser (lines : list str) :
  filter nonempty (blank_collapser lines) = filter nonblank lines.
Proof.
  unfold blank_collapser. cbv zeta.
  rewrite filter_pop_trailing, filter_pop_leading.
  unfold collapse. rewrite filter_fold_collapse. simpl.
  apply filter_cleaned_stage1.
Qed.

(** X6.  The blank-line clean-up of remove-all mode is idempotent. *)
Theorem X6_blank_collapser_idempotent (lines : list str) :
  blank_collapser (blank_collapser lines) = blank_collapser lines.
Proof. apply blank_collapser_fixed, blank_collapser_canonical. Qed.

(** X7.  The blank-line clean-up removes or empties only lines that are
    empty or whitespace-only: the non-empty lines of its result are the
    lines with something else than whitespace that it was given, unchanged
    and in the same order. *)
Theorem X7_blank_collapser_keeps_nonblank_lines (lines : list str) :
  filter nonempty (blank_collapser lines) = filter nonblank lines.
Proof. apply filter_blank_collapser. Qed.

(** X8.  In remove-all mode, for a mapped extension, the non-empty lines of
    the output are the per-line results that are not blank, in the order of
    the lines of the block-stripped content: the clean-up and the final
    newline handling drop no such line and add none. *)
Theorem X8_remove_all_keeps_processed_lines
        (lower : str -> str) (content ext : str) (d : lang_def) :
  dict_get LANGUAGE_MAP (lower ext) = Some d ->
  filter nonempty (file_lines (process_code_content lower content ext true))
  = filter nonblank
      (map (process_line d true) (split_nl (block_pass d true content))).
Proof.
  intros E. unfold process_code_content. rewrite E.
  destruct (LANGUAGE_MAP_wf _ _ E) as [mk W].
  rewrite (remove_all_file_lines mk d W).
  rewrite <- (filter_blank_collapser (map _ _)).
  change (blank_collapser (map (process_line d true) (split_nl (block_pass d true content))))
    with (final_lines d true content).
  destruct (final_lines d true content) as [|l ls]; [|reflexivity].
  now destruct (endswith_nl content).
Qed.

Lemma X8_witness :
  filter nonempty
    (file_lines (process_code_content lower_ascii
                   (py "\n# a\nx = 1  # b\n   \n\n/* not php */\ny = 2\n\n") (py ".py") true))
  = filter nonblank
      (map (process_line python_like true)
           (split_nl (block_pass python_like true
                        (py "\n# a\nx = 1  # b\n   \n\n/* not php */\ny = 2\n\n")))).
Proof.
  apply (X8_remove_all_keeps_processed_lines lower_ascii
           (py "\n# a\nx = 1  # b\n   \n\n/* not php */\ny = 2\n\n") (py ".py")
           python_like).
  reflexivity.
Defined.

(** ** Remove-all mode on a file without comments *)

Lemma sub_empty_from_no_first (c : char) (r' : regex) (s : str) : forall pos,
  ~ In c s -> sub_empty_from (Chr c :: r') pos 0 s = s.
Proof.
  induction s as [|x s IH]; intros pos N; [reflexivity|].
  simpl. destruct (N.eqb_spec x c) as [->|_]; [exfalso; apply N; now left|].
  f_equal. apply IH. intros I. apply N. now right.
Qed.

Lemma block_pass_unmarked (d : lang_def) (content : str) :
  In d COMMENT_DEFINITIONS -> unmarked (openers d) content ->
  block_pass d true content = content.
Proof.
  intros H U.
  assert (B : block_dotall d = None \/
              exists c r', block_dotall d = Some (Chr c :: r') /\ openers d c = true).
  { unfold COMMENT_DEFINITIONS in H.
    destruct H as [<-|[<-|[<-|[<-|[<-|[<-|[]]]]]]];
      try (now left); right; eexists; eexists; split; reflexivity. }
  unfold block_pass. destruct B as [->|[c [r' [-> Mc]]]]; [reflexivity|].
  apply sub_empty_from_no_first. intros I. rewrite (U c I) in Mc. discriminate.
Qed.

Lemma result_lines_unmarked (d : lang_def) (content : str) :
  In d COMMENT_DEFINITIONS -> unmarked (openers d) content ->
  result_lines d true content = split_nl content.
Proof.
  intros H U. unfold result_lines. rewrite (block_pass_unmarked d content H U).
  apply map_fixed. intros l Hl.
  apply (process_line_unmarked (openers d) d (openers_wf d H)).
  intros c Hc. apply U. exact (In_split_nl c l content Hl Hc).
Qed.

(** X9.  In remove-all mode, on a content that holds none of the
    comment-opening characters of its definition, the block pass removes
    nothing and the non-empty lines of the output are the lines of the
    content that are not blank, unchanged and in order: only blank lines are
    touched. *)
Theorem X9_remove_all_comment_free_content
        (lower : str -> str) (content ext : str) (d : lang_def) :
  dict_get LANGUAGE_MAP (lower ext) = Some d ->
  (forall c, In c content -> openers d c = false) ->
  block_pass d true content = content /\
  filter nonempty (file_lines (process_code_content lower content ext true))
  = filter nonblank (split_nl content).
Proof.
  intros E U. assert (H := LANGUAGE_MAP_definitions _ _ E).
  split; [now apply block_pass_unmarked|].
  unfold process_code_content. rewrite E.
  rewrite (remove_all_file_lines (openers d) d (openers_wf d H)).
  unfold final_lines. rewrite (result_lines_unmarked d content H U).
  rewrite <- (filter_blank_collapser (split_nl content)).
  destruct (blank_collapser (split_nl content)) as [|l ls]; [|reflexivity].
  now destruct (endswith_nl content).
Qed.

Lemma X9_witness :
  block_pass c_like true (py "\n\nint x = 1;\n  \t\n\n\nint y = x * 2;  \n\n")
  = py "\n\nint x = 1;\n  \t\n\n\nint y = x * 2;  \n\n" /\
  filter nonempty
    (file_lines (process_code_content lower_ascii
                   (py "\n\nint x = 1;\n  \t\n\n\nint y = x * 2;  \n\n") (py ".c") true))
  = filter nonblank (split_nl (py "\n\nint x = 1;\n  \t\n\n\nint y = x * 2;  \n\n")).
Proof.
  apply (X9_remove_all_comment_free_content lower_ascii
           (py "\n\nint x = 1;\n  \t\n\n\nint y = x * 2;  \n\n") (py ".c") c_like);
    [reflexivity|].
  intros c H. vm_compute in H.
  repeat (destruct H as [H|H]; [subst c; reflexivity|]). destruct H.
Defined.

(** X10.  In remove-all mode, a content that holds none of the
    comment-opening characters of its definition and whose lines are already
    in the form the clean-up produces (no whitespace-only line, no two empty
    lines in a row, no empty first or last line) comes back unchanged. *)
Theorem X10_remove_all_keeps_clean_comment_free_content
        (lower : str -> str) (content ext : str) (d : lang_def) :
  dict_get LANGUAGE_MAP (lower ext) = Some d ->
  (forall c, In c content -> openers d c = false) ->
  canonical (file_lines content) ->
  process_code_content lower content ext true = content.
Proof.
  intros E U C. assert (H := LANGUAGE_MAP_definitions _ _ E).
  unfold process_code_content. rewrite E.
  rewrite (remove_all_output (openers d) d (openers_wf d H)).
  unfold final_lines. rewrite (result_lines_unmarked d content H U).
  rewrite (endswith_nl_split content).
  unfold file_lines in C.
  destruct (is_empty (last (split_nl content) [])) eqn:L.
  - apply is_empty_true in L.
    assert (P : split_nl content = removelast (split_nl content) ++ [[]]).
    { assert (Q := @app_removelast_last _ (split_nl content) []
                                        (split_nl_not_nil content)).
      now rewrite L in Q. }
    destruct (removelast (split_nl content)) as [|l ls] eqn:R.
    + rewrite P. simpl. rewrite <- (join_split content), P. reflexivity.
    + rewrite P at 1. rewrite blank_collapser_snoc by (exact C || discriminate).
      replace (Nat.ltb 1 (length (split_nl content))) with true.
      * simpl andb. change (join_nl (l :: ls) ++ nl :: [] = content).
        rewrite <- join_nl_snoc by discriminate.
        transitivity (join_nl (split_nl content)); [|apply join_split].
        f_equal. symmetry. exact P.
      * symmetry. apply Nat.ltb_lt. rewrite P, length_app. simpl. lia.
  - rewrite (blank_collapser_fixed _ C), andb_false_r, app_nil_r.
    apply join_split.
Qed.

Lemma X10_witness :
  process_code_content lower_ascii
    (py "package main\n\nfunc main() {\n\tprintln(1)\n}\n") (py ".go") true
  = py "package main\n\nfunc main() {\n\tprintln(1)\n}\n".
Proof.
  apply (X10_remove_all_keeps_clean_comment_free_content lower_ascii
           (py "package main\n\nfunc main() {\n\tprintln(1)\n}\n") (py ".go")
           c_like_line_only).
  - reflexivity.
  - intros c H. vm_compute in H.
    repeat (destruct H as [H|H]; [subst c; reflexivity|]). destruct H.
  - split.
    + reflexivity.
    + right. split; vm_compute; discriminate.
    + intros l H. vm_compute in H.
      repeat (destruct H as [H|H];
              [subst l; first [now left | right; vm_compute; discriminate]|]).
      destruct H.
Defined.

(** ** Size of the inline-only output *)

Lemma join_nl_length_prefix (a b : list str) :
  Forall2 prefix a b -> length (join_nl a) <= length (join_nl b).
Proof.
  induction 1 as [|x y a b P F IH]; [reflexivity|].
  destruct F as [|x' y' a' b' P' F'].
  - simpl. now apply prefix_length.
  - rewrite (join_nl_cons x (x' :: a')), (join_nl_cons y (y' :: b')) by discriminate.
    assert (L : forall u v : str, length (u ++ nl :: v) = length u + S (length v))
      by (intros; rewrite length_app; reflexivity).
    rewrite !L. apply prefix_length in P. lia.
Qed.

(** X11.  In inline-only mode the output is never longer than the input. *)
Theorem X11_inline_only_never_grows (lower : str -> str) (content ext : str) :
  length (process_code_content lower content ext false) <= length content.
Proof.
  destruct (process_code_content_cases lower content ext false)
    as [[_ ->]|[d [mk [_ [W ->]]]]]; [reflexivity|].
  rewrite (inline_only_output mk d W).
  rewrite <- (join_split content) at 2.
  apply join_nl_length_prefix, Forall2_prefix_map.
  intros l. apply (strip_inline_facts mk d W).
Qed.

(** ** The extension table *)



(** ** [process_file] *)

(** X13.  [process_file] rewrites the file only in a run that is not a dry
    run, on a supported extension and a file that could be read as text, and
    only when the transform changes the text; what it writes is the
    transform of what it read. *)
Theorem X13_process_file_writes_only_changes
        (lower : str -> str) (ext : str) (file : read_result)
        (write_succeeds dry_run flag : bool) (new_content : str) :
  fst (process_file lower ext file write_succeeds dry_run flag) = Written new_content ->
  dry_run = false /\ write_succeeds = true /\
  dict_get LANGUAGE_MAP (lower ext) <> None /\
  exists content,
    file = ReadText content /\
    new_content = process_code_content lower content ext flag /\
    new_content <> content /\
    snd (process_file lower ext file write_succeeds dry_run flag) = Modified.
Proof.
  unfold process_file.
  destruct (dict_get LANGUAGE_MAP (lower ext)) as [d|] eqn:E; [|discriminate].
  destruct file as [content| |]; try discriminate. cbv zeta.
  destruct (str_eqb content (process_code_content lower content ext flag)) eqn:Q;
    cbn [negb]; [discriminate|].
  destruct dry_run; [discriminate|]. destruct write_succeeds; [|discriminate].
  simpl. intros H. injection H as <-. apply str_eqb_neq in Q.
  repeat split; try discriminate.
  exists content. repeat split; congruence.
Qed.

Lemma X13_witness :
  false = false /\ true = true /\
  dict_get LANGUAGE_MAP (lower_ascii (py ".py")) <> None /\
  exists content,
    ReadText (py "x = 1  # note\n") = ReadText content /\
    py "x = 1\n" = process_code_content lower_ascii content (py ".py") false /\
    py "x = 1\n" <> content /\
    snd (process_file lower_ascii (py ".py") (ReadText (py "x = 1  # note\n"))
                      true false false) = Modified.
Proof.
  apply (X13_process_file_writes_only_changes lower_ascii (py ".py")
           (ReadText (py "x = 1  # note\n")) true false false (py "x = 1\n")).
  vm_compute. reflexivity.
Defined.

(** X14.  A dry run announces exactly what a real run does: it prints
    "Would modify" if and only if the real run on the same file and mode
    goes on to rewrite the file (which then succeeds or raises), and
    otherwise both print the same line and leave the file alone. *)
Theorem X14_dry_run_previews_real_run
        (lower : str -> str) (ext : str) (file : read_result)
        (write_succeeds flag : bool) :
  fst (process_file lower ext file write_succeeds true flag) = Untouched /\
  (snd (process_file lower ext file write_succeeds true flag) = Would_modify <->
   fst (process_file lower ext file write_succeeds false flag) <> Untouched) /\
  (snd (process_file lower ext file write_succeeds true flag) <> Would_modify ->
   process_file lower ext file write_succeeds false flag
   = process_file lower ext file write_succeeds true flag).
Proof.
  unfold process_file.
  destruct (dict_get LANGUAGE_MAP (lower ext)) as [d|];
    [|simpl; repeat split; congruence].
  destruct file as [content| |]; [|simpl; repeat split; congruence..].
  cbv zeta.
  destruct (negb (str_eqb content (process_code_content lower content ext flag)));
    [|simpl; repeat split; congruence].
  destruct write_succeeds; simpl; repeat split; congruence.
Qed.

Lemma process_code_content_again
      (lower : str -> str) (content ext : str) (flag : bool) :
  (flag = false \/
   forall d, dict_get LANGUAGE_MAP (lower ext) = Some d ->
             block_pass d true (process_code_content lower content ext true)
             = process_code_content lower content ext true) ->
  process_code_content lower (process_code_content lower content ext flag) ext flag
  = process_code_content lower content ext flag.
Proof.
  intros H. unfold process_code_content in *.
  destruct (dict_get LANGUAGE_MAP (lower ext)) as [d|] eqn:E; [|reflexivity].
  destruct (LANGUAGE_MAP_wf _ _ E) as [mk W].
  destruct flag.
  - destruct H as [H|H]; [discriminate|].
    apply (remove_all_idem mk d W). now apply H.
  - now apply (inline_only_idem mk d).
Qed.

(** X15.  After a run that rewrote the file, a second run in the same mode
    finds nothing to do ("No changes needed", file untouched, dry run or
    not): always in inline-only mode, and in remove-all mode when the block
    pass finds nothing to remove in the text that was written. *)
Theorem X15_process_file_second_run_is_noop
        (lower : str -> str) (ext content written : str)
        (flag write_succeeds dry_run : bool) :
  fst (process_file lower ext (ReadText content) true false flag) = Written written ->
  (flag = false \/
   forall d, dict_get LANGUAGE_MAP (lower ext) = Some d ->
             block_pass d true written = written) ->
  process_file lower ext (ReadText written) write_succeeds dry_run flag
  = (Untouched, No_changes_needed).
Proof.
  intros H B.
  assert (W : written = process_code_content lower content ext flag).
  { unfold process_file in H.
    destruct (dict_get LANGUAGE_MAP (lower ext)); [|discriminate].
    cbv zeta in H.
    destruct (negb (str_eqb content (process_code_content lower content ext flag)));
      [|discriminate].
    simpl in H. now injection H as <-. }
  subst written. unfold process_file.
  destruct (dict_get LANGUAGE_MAP (lower ext)) as [d|] eqn:E.
  - cbv zeta. rewrite process_code_content_again, str_eqb_refl; [reflexivity|].
    destruct flag; [right | now left].
    destruct B as [B|B]; [discriminate|].
    intros d0 E0. apply B. congruence.
  - unfold process_file in H. rewrite E in H. discriminate.
Qed.

Lemma X15_witness :
  process_file lower_ascii (py ".js") (ReadText (py "let a = 1;\n\nlet b = 2; \n"))
               true false true
  = (Untouched, No_changes_needed).
Proof.
  apply (X15_process_file_second_run_is_noop lower_ascii (py ".js")
           (py "let a = 1; // one\n/* two\n   lines */\nlet b = 2; /* three */\n")
           (py "let a = 1;\n\nlet b = 2; \n") true true false).
  - vm_compute. reflexivity.
  - right. intros d H. vm_compute in H. injection H as <-. vm_compute. reflexivity.
Defined.

(** ** [summary.py]: [is_allowed_path] *)

Lemma split_on_not_nil (sep : char) (s : str) : Summary.split_on sep s <> [].
Proof.
  destruct s as [|c s]; simpl; [discriminate|].
  destruct (c =? sep)%N; [discriminate|].
  destruct (Summary.split_on sep s); discriminate.
Qed.

Lemma split_on_app (sep : char) (a b : str) :
  Summary.split_on sep (a ++ sep :: b)
  = Summary.split_on sep a ++ Summary.split_on sep b.
Proof.
  induction a as [|c a IH]; simpl.
  - now rewrite N.eqb_refl.
  - destruct (c =? sep)%N; [now rewrite IH|].
    rewrite IH. destruct (Summary.split_on sep a) eqn:E; [|reflexivity].
    exfalso. exact (split_on_not_nil sep a E).
Qed.

(** X16.  A path made of two paths joined by the separator is allowed
    exactly when both are: a banned prefix on any component, at any depth,
    bans the whole path. *)
Theorem X16_is_allowed_path_is_componentwise
        (sep : char) (a b : str) (banned_prefixes : list str) :
  Summary.is_allowed_path sep (a ++ sep :: b) banned_prefixes
  = Summary.is_allowed_path sep a banned_prefixes
    && Summary.is_allowed_path sep b banned_prefixes.
Proof.
  unfold Summary.is_allowed_path.
  now rewrite split_on_app, existsb_app, negb_orb.
Qed.

(** X17.  With no banned prefix every path is allowed; with the empty string
    among the banned prefixes no path is allowed, not even the empty one
    (every component starts with the empty string). *)
Theorem X17_is_allowed_path_edge_cases (sep : char) (path : str) :
  Summary.is_allowed_path sep path [] = true /\
  forall banned_prefixes,
    In [] banned_prefixes -> Summary.is_allowed_path sep path banned_prefixes = false.
Proof.
  unfold Summary.is_allowed_path. split.
  - induction (Summary.split_on sep path) as [|p ps IH]; [reflexivity | exact IH].
  - intros banned H. apply negb_false_iff, existsb_exists.
    destruct (Summary.split_on sep path) as [|p ps] eqn:E;
      [exfalso; exact (split_on_not_nil sep path E)|].
    exists p. split; [now left|]. apply existsb_exists. exists []. now split.
Qed.

(** ** The two modes, line by line *)

(** X18.  For every definition of the table, what remove-all mode makes of a
    line is an initial segment of what inline-only mode makes of it:
    remove-all cuts at least as much. *)
Theorem X18_remove_all_cuts_at_least_inline_only (d : lang_def) (line : str) :
  In d COMMENT_DEFINITIONS ->
  prefix (process_line d true line) (process_line d false line).
Proof.
  intros H. assert (W := openers_wf d H).
  unfold process_line at 2. cbn [andb].
  destruct (str_eqb (strip_inline d false line) line) eqn:E0.
  - apply str_eqb_eq in E0. rewrite E0. apply (process_line_prefix _ d W).
  - apply str_eqb_neq in E0. unfold process_line.
    destruct (true && is_full_line_comment_type d line);
      [now exists (strip_inline d false line)|].
    destruct (strip_inline_cut d H true line) as [E1|E1];
      destruct (strip_inline_cut d H false line) as [E2|E2]; try contradiction.
    + exfalso. apply E0.
      apply (strip_inline_fixed d). unfold inline_pass. apply fold_left_fixed.
      intros p Hp. unfold apply_inline.
      rewrite (remove_all_fixed_no_match _ d W line p); [reflexivity| |exact Hp].
      now rewrite <- (strip_inline_one_pass _ d W).
    + rewrite E1, E2. apply prefix_refl.
Qed.

Lemma X18_witness :
  prefix (process_line php_like true (py "  # note"))
         (process_line php_like false (py "  # note")).
Proof.
  apply (X18_remove_all_cuts_at_least_inline_only php_like (py "  # note")).
  simpl. tauto.
Defined.
